(** * Tolgee CLI: credential resolution and the HTTP request executor

    A shallow embedding of the two core components of the Tolgee CLI:

    - [Credentials]: the credential store and resolver ([saveApiKey],
      [getApiKey]) exercised by the test-suite of [src/config/credentials];
    - [Client]: the request executor of [src/client/internal/client.ts]
      ([request], [Client.projectUrl], [Client.request], [Client.requestVoid]);
    - [ImportClient]: the endpoint client of [src/client/import.ts].

    JavaScript objects used as dictionaries are finite maps when only lookups
    matter (the credential document, the header record) and association
    lists in enumeration order when the code iterates over them (the query
    record).  Effects (the debug log, the network, response body streams) are
    threaded through an explicit [World]. *)

From Stdlib Require Import ZArith String Ascii List Bool Lia DecimalString.
From Stdlib Require DecimalZ.
From stdpp Require Import gmap strings list fin_maps.
Import ListNotations.

Set Warnings "-register-all".

Local Open Scope string_scope.
Local Open Scope Z_scope.

(* ===================================================================== *)
(** ** Credential store and resolver *)
(* ===================================================================== *)

Module Credentials.

(** [project: { id, name }] of a project API key. *)
Record Project := mkProject { id : Z; name : string }.

(** The stored credential: a tagged union discriminated by [type]
    ([PAT_1] ... [PAK_3] of the test-suite are values of this type). *)
Inductive Credential :=
| PAT (key username : string) (expires : Z)
| PAK (key username : string) (project : Project) (expires : Z).

Definition key (c : Credential) : string :=
  match c with PAT k _ _ => k | PAK k _ _ _ => k end.

Definition expires (c : Credential) : Z :=
  match c with PAT _ _ e => e | PAK _ _ _ e => e end.

Definition isPAT (c : Credential) : bool :=
  match c with PAT _ _ _ => true | PAK _ _ _ _ => false end.

(** A project API key scoped to project [p]. *)
Definition isPAKfor (p : Z) (c : Credential) : bool :=
  match c with PAT _ _ _ => false | PAK _ _ pr _ => id pr =? p end.

(** The identity that decides replacement on save: the PAT of the
    instance, or the PAK of one project id. *)
Inductive Identity := IdPAT | IdPAK (projectId : Z).

Definition identity (c : Credential) : Identity :=
  match c with PAT _ _ _ => IdPAT | PAK _ _ pr _ => IdPAK (id pr) end.

Definition sameIdentity (a b : Credential) : bool :=
  match a, b with
  | PAT _ _ _, PAT _ _ _ => true
  | PAK _ _ pa _, PAK _ _ pb _ => id pa =? id pb
  | _, _ => false
  end.

(** Modelled from the spec: the store document of [src/config/credentials]
    (the module is exercised by the tests but its text is not part of the
    sources): a mapping from the instance host to its list of credentials,
    in insertion order. *)
Abbreviation Document := (gmap string (list Credential)).

(** The persisted authentication file: absent, or holding one document. *)
Definition AuthFile := option Document.

(** Modelled from the spec: [load() -> mapping] of the credential store,
    which reads the persisted document and returns an empty mapping if
    none exists yet. *)
Definition loadStore (f : AuthFile) : Document := default ∅ f.

(** Modelled from the spec: [save(document)] of the credential store,
    which overwrites the persisted document with the given full mapping. *)
Definition saveStore (d : Document) : AuthFile := Some d.

(** The credential list of [instance] in a loaded document (empty if
    absent). *)
Definition credentialsOf (d : Document) (instance : string) : list Credential :=
  default [] (d !! instance).

(** What a load of the persisted file shows for [instance]. *)
Definition stored (f : AuthFile) (instance : string) : list Credential :=
  credentialsOf (loadStore f) instance.

(** [expires = 0] means never; otherwise a timestamp after which the
    credential is invalid. *)
Definition isExpired (now : Z) (c : Credential) : bool :=
  negb (expires c =? 0) && (expires c <? now).

Definition isValid (now : Z) (c : Credential) : bool := negb (isExpired now c).

(** Modelled from the spec: [saveApiKey(instance, credential)] of
    [src/config/credentials]: load the document, fetch or create the list
    of the instance, remove the entry of matching identity, append the new
    credential, persist the full document. *)
Definition saveApiKey (instance : string) (credential : Credential)
    (f : AuthFile) : AuthFile :=
  let doc := loadStore f in
  let entries := credentialsOf doc instance in
  let kept := List.filter (fun c => negb (sameIdentity credential c)) entries in
  saveStore (<[instance := (kept ++ [credential])%list]> doc).

(** Step 4 of the resolution: a valid PAT outranks a PAK of the requested
    project; otherwise null. *)
Definition select (projectId : Z) (valid : list Credential) : option string :=
  match List.find isPAT valid with
  | Some c => Some (key c)
  | None =>
      match List.find (isPAKfor projectId) valid with
      | Some c => Some (key c)
      | None => None
      end
  end.

(** Modelled from the spec: [getApiKey(instance, projectId)] of
    [src/config/credentials]: load, partition into expired and valid
    entries, write the pruned document back if anything was expired, then
    select among the valid entries.  Returns the key (or null) and the
    persisted file after the call. *)
Definition getApiKey (now : Z) (instance : string) (projectId : Z)
    (f : AuthFile) : option string * AuthFile :=
  let doc := loadStore f in
  let entries := credentialsOf doc instance in
  let expired := List.filter (isExpired now) entries in
  let valid := List.filter (isValid now) entries in
  let f' := match expired with
            | [] => f
            | _ :: _ => saveStore (<[instance := valid]> doc)
            end in
  (select projectId valid, f').

(** The store invariant on one list: no two entries share an identity,
    that is, at most one PAT and at most one PAK per project id. *)
Definition uniqueIdentities (l : list Credential) : Prop :=
  NoDup (List.map identity l).

(** The store invariant on the persisted file. *)
Definition storeInvariant (f : AuthFile) : Prop :=
  forall instance, uniqueIdentities (stored f instance).

(** *** Fixtures of the test-suite *)

Definition TG_1 := "app.tolgee.io".
Definition TG_2 := "meow.local".
Definition TG_3 := "nya.local".
Definition PAT_1 := PAT "tgpat_xxxxxxxxxx" "sleepycat" 0.
Definition PAT_2 := PAT "tgpat_yyyyyyyyyy" "sleepycat" 0.
Definition PAT_3 := PAT "tgpat_zzzzzzzzzz" "sleepycat" 0.
Definition PAT_4 := PAT "tgpat_expired" "sleepycat" 2.
Definition PAK_1 := PAK "tgpak_gfpw2zlpo4qhk53v" "sleepycat" (mkProject 1 "project 1") 0.
Definition PAK_2 := PAK "tgpak_gjpw2zlpo4qhk53v" "sleepycat" (mkProject 2 "project 2") 0.
Definition PAK_3 := PAK "tgpak_gfpwo4tsojzhe4ts" "sleepycat" (mkProject 1 "project 1") 0.

(** The store built by [beforeAll] of the [load] tests. *)
Definition loadFixture : AuthFile :=
  saveApiKey TG_3 PAT_4
    (saveApiKey TG_1 PAK_1
       (saveApiKey TG_2 PAT_1
          (saveApiKey TG_1 PAK_2
             (saveApiKey TG_1 PAK_1 None)))).

(** A plausible current time for the tests (milliseconds since epoch). *)
Definition testNow : Z := 1700000000000.

End Credentials.

(* ===================================================================== *)
(** ** JavaScript values and platform functions used by the client *)
(* ===================================================================== *)

Module Js.

(** Values a request body can hold.  Numbers are the integers. *)
Inductive Value :=
| VUndefined
| VNull
| VBool (b : bool)
| VNum (n : Z)
| VStr (s : string)
| VArr (items : list Value)
| VObj (props : list (string * Value)).

(** [Primitive = string | boolean | number]. *)
Inductive Primitive :=
| PString (s : string)
| PBoolean (b : bool)
| PNumber (n : Z).

(** Decimal rendering of an integer, as in a template literal. *)
Definition showNumber (n : Z) : string := NilEmpty.string_of_int (Z.to_int n).

Definition showBool (b : bool) : string := if b then "true" else "false".

(** [String(v)] on a primitive. *)
Definition String_of (p : Primitive) : string :=
  match p with
  | PString s => s
  | PBoolean b => showBool b
  | PNumber n => showNumber n
  end.

(** The [ToBoolean] conversion behind [if (v)]. *)
Definition truthy (v : Value) : bool :=
  match v with
  | VUndefined | VNull => false
  | VBool b => b
  | VNum n => negb (n =? 0)
  | VStr s => negb (String.eqb s EmptyString)
  | VArr _ | VObj _ => true
  end.

Definition dquote : string := String (ascii_of_nat 34) EmptyString.
Definition backslash : string := String (ascii_of_nat 92) EmptyString.

Definition hexDigit (n : nat) : string :=
  String (ascii_of_nat (if (n <? 10)%nat then 48 + n else 87 + n)) EmptyString.

(** One character of a JSON string literal. *)
Definition escapeChar (a : ascii) : string :=
  let n := nat_of_ascii a in
  if (n =? 34)%nat then backslash ++ dquote
  else if (n =? 92)%nat then backslash ++ backslash
  else if (n =? 8)%nat then backslash ++ "b"
  else if (n =? 9)%nat then backslash ++ "t"
  else if (n =? 10)%nat then backslash ++ "n"
  else if (n =? 12)%nat then backslash ++ "f"
  else if (n =? 13)%nat then backslash ++ "r"
  else if (n <? 32)%nat then
    backslash ++ "u00" ++ hexDigit (n / 16) ++ hexDigit (n mod 16)
  else String a EmptyString.

Fixpoint escape (s : string) : string :=
  match s with
  | EmptyString => EmptyString
  | String a r => escapeChar a ++ escape r
  end.

Definition quote (s : string) : string := dquote ++ escape s ++ dquote.

Definition join (sep : string) (l : list string) : string := String.concat sep l.

(** [JSON.stringify(v)]: [None] is JavaScript's [undefined]. *)
Fixpoint JSON_stringify (v : Value) : option string :=
  match v with
  | VUndefined => None
  | VNull => Some "null"
  | VBool b => Some (showBool b)
  | VNum n => Some (showNumber n)
  | VStr s => Some (quote s)
  | VArr items =>
      Some ("[" ++ join "," (List.map (fun x => default "null" (JSON_stringify x)) items) ++ "]")
  | VObj props =>
      Some ("{" ++ join ","
              (List.flat_map
                 (fun p => match JSON_stringify (snd p) with
                           | Some t => [quote (fst p) ++ ":" ++ t]
                           | None => []
                           end) props) ++ "}")
  end.

(** *** The [form-data] package *)

Record FormEntry := mkFormEntry { field : string; data : string; filename : string }.

(** A multipart form payload: its boundary and the appended entries. *)
Record FormData := mkFormData { boundary : string; entries : list FormEntry }.

(** [form.append(field, data, { filename })]. *)
Definition append (form : FormData) (e : FormEntry) : FormData :=
  {| boundary := boundary form; entries := (entries form ++ [e])%list |}.

Definition getBoundary (form : FormData) : string := boundary form.

Definition CRLF : string := String (ascii_of_nat 13) (String (ascii_of_nat 10) EmptyString).

Definition encodeEntry (b : string) (e : FormEntry) : string :=
  "--" ++ b ++ CRLF
  ++ "Content-Disposition: form-data; name=" ++ dquote ++ field e ++ dquote
  ++ "; filename=" ++ dquote ++ filename e ++ dquote ++ CRLF
  ++ CRLF ++ data e ++ CRLF.

(** [form.getBuffer()]: the encoded multipart bytes (the per-part
    [Content-Type] line the package derives from the file name is left
    out). *)
Definition getBuffer (form : FormData) : string :=
  String.concat EmptyString (List.map (encodeEntry (boundary form)) (entries form))
  ++ "--" ++ boundary form ++ "--" ++ CRLF.

(** *** URL and URLSearchParams *)

Abbreviation URLSearchParams := (list (string * string)).

(** [searchParams.append(name, value)]. *)
Definition searchParams_append (name value : string) (ps : URLSearchParams)
    : URLSearchParams :=
  (ps ++ [(name, value)])%list.

(** [searchParams.set(name, value)]: the first pair called [name] takes
    the value and the others are removed; without such a pair, the new
    pair is appended. *)
Fixpoint searchParams_set (name value : string) (ps : URLSearchParams)
    : URLSearchParams :=
  match ps with
  | [] => [(name, value)]
  | (n, v) :: rest =>
      if String.eqb n name
      then (name, value) :: List.filter (fun p => negb (String.eqb (fst p) name)) rest
      else (n, v) :: searchParams_set name value rest
  end.

(** [searchParams.getAll(name)]. *)
Definition searchParams_getAll (name : string) (ps : URLSearchParams) : list string :=
  List.map snd (List.filter (fun p => String.eqb (fst p) name) ps).

(** The text before the first [c], and the text after it if [c] occurs. *)
Fixpoint cut (c : ascii) (s : string) : string * option string :=
  match s with
  | EmptyString => (EmptyString, None)
  | String a r =>
      if Ascii.eqb a c then (EmptyString, Some r)
      else let '(h, t) := cut c r in (String a h, t)
  end.

Fixpoint splitOn (c : ascii) (s : string) : list string :=
  match s with
  | EmptyString => [EmptyString]
  | String a r =>
      if Ascii.eqb a c then EmptyString :: splitOn c r
      else match splitOn c r with
           | h :: t => String a h :: t
           | [] => [String a EmptyString]
           end
  end.

(** The pairs of a query string [a=1&b=2] (percent-decoding is left
    out). *)
Definition parseQuery (q : string) : URLSearchParams :=
  List.flat_map
    (fun piece =>
       if String.eqb piece EmptyString then []
       else let '(n, v) := cut "="%char piece in [(n, default EmptyString v)])
    (splitOn "&"%char q).

(** A parsed URL: the base it was resolved against, the path part of the
    input and its query parameters. *)
Record URL := mkURL { base : string; pathname : string; searchParams : URLSearchParams }.

(** [new URL(input, base)] for a relative [input]: the fragment is
    dropped from the query, which is parsed into [searchParams]. *)
Definition URL_new (input base : string) : URL :=
  let '(beforeHash, _) := cut "#"%char input in
  let '(p, q) := cut "?"%char beforeHash in
  {| base := base; pathname := p; searchParams := parseQuery (default EmptyString q) |}.

End Js.

(* ===================================================================== *)
(** ** The request executor, [src/client/internal/client.ts] *)
(* ===================================================================== *)

Module Internal.
Import Js.

Abbreviation Headers := (gmap string string).

(** The [body] argument of [fetch]: [string | Buffer]. *)
Inductive BodyInit :=
| TextBody (text : string)
| BufferBody (bytes : string).

(** One call of [fetch(url, { method, headers, body })]. *)
Record FetchCall := mkFetchCall {
  call_url : URL;
  call_method : string;
  call_headers : Headers;
  call_body : option BodyInit
}.

(** What reading a response body stream delivers next. *)
Inductive ReadEvent :=
| Chunk (bytes : string)
| ReadFailure (message : string).

(** The unread remainder of a body stream; [[]] is a stream read to
    completion. *)
Abbreviation Stream := (list ReadEvent).

(** How the network answers a call: no response at all, or a response
    with its status line and, possibly, a body. *)
Inductive FetchReply :=
| NetworkFailure (message : string)
| Reply (status : Z) (statusText : string) (body : option Stream).

(** undici's [Response]; [body] is the handle of its stream in the
    world, or null. *)
Record Response := mkResponse {
  status : Z;
  statusText : string;
  body : option nat
}.

(** [res.ok]: the status is in the range 200-299. *)
Definition ok (res : Response) : bool := (200 <=? status res) && (status res <=? 299).

(** Modelled from the spec: [HttpError] of [src/client/errors], an error
    carrying the raw response.  The other two are what [fetch] and a body
    stream reject with. *)
Inductive Error :=
| HttpError (response : Response)
| FetchError (message : string)
| StreamError (message : string).

(** The state the executor runs in: the module variable [version], the
    network, the calls issued so far and the body streams of the
    responses received so far. *)
Record World := mkWorld {
  version : string;
  network : FetchCall -> FetchReply;
  issued : list FetchCall;
  streams : list Stream
}.

(** *** Promises: state and exceptions *)

Inductive Result (A : Type) :=
| Resolved (a : A)
| Rejected (e : Error).
Arguments Resolved {A} a.
Arguments Rejected {A} e.

Definition Promise (A : Type) : Type := World -> Result A * World.

Definition ret {A} (a : A) : Promise A := fun w => (Resolved a, w).

Definition throw {A} (e : Error) : Promise A := fun w => (Rejected e, w).

Definition bind {A B} (m : Promise A) (k : A -> Promise B) : Promise B :=
  fun w => match m w with
           | (Resolved a, w') => k a w'
           | (Rejected e, w') => (Rejected e, w')
           end.

(** [try { m } catch (e) { handler e }]. *)
Definition tryCatch {A} (m : Promise A) (handler : Error -> Promise A) : Promise A :=
  fun w => match m w with
           | (Resolved a, w') => (Resolved a, w')
           | (Rejected e, w') => handler e w'
           end.

Notation "x <- m ;; k" := (bind m (fun x => k))
  (at level 100, m at next level, right associativity).

Definition getVersion : Promise string := fun w => (Resolved (version w), w).

(** undici's [fetch]: the call is issued, and the body stream of the
    response, if any, is opened in the world. *)
Definition fetch (call : FetchCall) : Promise Response :=
  fun w =>
    let w1 := {| version := version w; network := network w;
                 issued := (issued w ++ [call])%list; streams := streams w |} in
    match network w call with
    | NetworkFailure msg => (Rejected (FetchError msg), w1)
    | Reply st txt None =>
        (Resolved {| status := st; statusText := txt; body := None |}, w1)
    | Reply st txt (Some s) =>
        (Resolved {| status := st; statusText := txt;
                     body := Some (length (streams w)) |},
         {| version := version w; network := network w;
            issued := (issued w ++ [call])%list;
            streams := (streams w ++ [s])%list |})
    end.

(** [for await (const _chunk of stream);] on the unread remainder. *)
Fixpoint readAll (s : Stream) : Result unit * Stream :=
  match s with
  | [] => (Resolved tt, [])
  | Chunk _ :: rest => readAll rest
  | ReadFailure msg :: rest => (Rejected (StreamError msg), rest)
  end.

(** Draining the stream behind a body handle. *)
Definition drain (h : nat) : Promise unit :=
  fun w =>
    match streams w !! h with
    | None => (Resolved tt, w)
    | Some s =>
        let '(r, rest) := readAll s in
        (r, {| version := version w; network := network w;
               issued := issued w; streams := <[h := rest]> (streams w) |})
    end.

Definition userAgent (v : string) : string :=
  "Tolgee-CLI/" ++ v ++ " (+https://github.com/tolgee/tolgee-cli)".

(** [export async function request(url, method, headers, body)].  The
    two [debug] lines write to the logger only and are left out. *)
Definition request (url : URL) (method : string) (headers : Headers)
    (body : option BodyInit) : Promise Response :=
  v <- getVersion ;;
  let headers := <["user-agent" := userAgent v]> headers in
  res <- fetch {| call_url := url; call_method := method;
                  call_headers := headers; call_body := body |} ;;
  if negb (ok res) then throw (HttpError res) else ret res.

(** *** Request descriptors *)

Inductive Method := GET | POST | PUT | PATCH | DELETE.

Definition methodName (m : Method) : string :=
  match m with
  | GET => "GET" | POST => "POST" | PUT => "PUT"
  | PATCH => "PATCH" | DELETE => "DELETE"
  end.

(** [body?: any]: a JavaScript value ([VUndefined] when absent) or a
    multipart form. *)
Inductive Body :=
| JsBody (v : Value)
| FormBody (form : FormData).

(** [Primitive | Primitive[] | undefined]. *)
Inductive QueryValue :=
| QUndefined
| QScalar (p : Primitive)
| QArray (items : list Primitive).

(** [Record<string, ...>] in the order [for ... in] enumerates it. *)
Abbreviation Query := (list (string * QueryValue)).

Record RequestData := mkRequestData {
  method : Method;
  path : string;
  req_body : Body;
  query : option Query;
  headers : option Headers
}.

(** [projectId] is [None] when the key is absent from the parameters,
    [Some None] when it is present and undefined. *)
Record ClientParams := mkClientParams {
  apiUrl : string;
  apiKey : string;
  projectId : option (option Z)
}.

Module Client.

(** A number or [undefined] inside a template literal. *)
Definition showProjectId (p : option Z) : string :=
  match p with
  | Some n => showNumber n
  | None => "undefined"
  end.

(** [protected get projectUrl()]. *)
Definition projectUrl (params : ClientParams) : string :=
  match projectId params with
  | Some p =>
      if negb (bool_decide (p = Some (-1)))
      then "/v2/projects/" ++ showProjectId p
      else "/v2/projects"
  | None => "/v2/projects"
  end.

(** The body of the loop over one query key. *)
Definition addParam (ps : URLSearchParams) (entry : string * QueryValue)
    : URLSearchParams :=
  let '(param, val) := entry in
  match val with
  | QUndefined => ps
  | QArray items =>
      List.fold_left (fun acc v => searchParams_append param (String_of v) acc) items ps
  | QScalar v => searchParams_set param (String_of v) ps
  end.

(** [for (const param in req.query) ...]. *)
Definition addQuery (q : Query) (ps : URLSearchParams) : URLSearchParams :=
  List.fold_left addParam q ps.

Definition bodyTruthy (b : Body) : bool :=
  match b with
  | JsBody v => truthy v
  | FormBody _ => true
  end.

(** The [if (req.body) { ... }] block: the headers and the body to
    send. *)
Definition encodeBody (b : Body) (hs : Headers) : Headers * option BodyInit :=
  if bodyTruthy b then
    match b with
    | FormBody form =>
        (<["content-type" := "multipart/form-data; boundary=" ++ getBoundary form]> hs,
         Some (BufferBody (getBuffer form)))
    | JsBody v =>
        (<["content-type" := "application/json"]> hs,
         TextBody <$> JSON_stringify v)
    end
  else (hs, None).

(** [protected async request(req)]. *)
Definition request (params : ClientParams) (req : RequestData) : Promise Response :=
  let url := URL_new (path req) (apiUrl params) in
  let url :=
    match query req with
    | Some q => {| base := base url; pathname := pathname url;
                   searchParams := addQuery q (searchParams url) |}
    | None => url
    end in
  let hs : Headers := <["x-api-key" := apiKey params]> (default ∅ (headers req)) in
  let '(hs, body) := encodeBody (req_body req) hs in
  Internal.request url (methodName (method req)) hs body.

(** [protected async requestVoid(req)]. *)
Definition requestVoid (params : ClientParams) (req : RequestData) : Promise unit :=
  res <- request params req ;;
  match body res with
  | Some h => drain h
  | None => ret tt
  end.

End Client.

(** The call one execution of [Client.request] hands to [fetch], read off
    its text: the URL with the query applied, the method, the merged
    headers with the user agent of version [v], and the encoded body
    ([Client_request_unfold] relates the two). *)
Definition callOf (params : ClientParams) (req : RequestData) (v : string) : FetchCall :=
  let fromPath := URL_new (path req) (apiUrl params) in
  let hs : Headers := <["x-api-key" := apiKey params]> (default ∅ (headers req)) in
  {| call_url :=
       {| base := base fromPath; pathname := pathname fromPath;
          searchParams :=
            match query req with
            | Some q => Client.addQuery q (searchParams fromPath)
            | None => searchParams fromPath
            end |};
     call_method := methodName (method req);
     call_headers :=
       <["user-agent" := userAgent v]> (fst (Client.encodeBody (req_body req) hs));
     call_body := snd (Client.encodeBody (req_body req) hs) |}.

(** The values a key of the query record has in the sent URL, given the
    values [before] that the URL held for it when the loop started: an
    undefined entry adds nothing, a scalar is set as the only value, the
    elements of a list are appended in order. *)
Definition contribution (val : QueryValue) (before : list string) : list string :=
  match val with
  | QUndefined => before
  | QScalar p => [String_of p]
  | QArray items => (before ++ List.map String_of items)%list
  end.

(** The world after one call was issued and the body streams [opened]
    were received. *)
Definition afterCall (w : World) (call : FetchCall) (opened : list Stream) : World :=
  {| version := version w; network := network w;
     issued := (issued w ++ [call])%list;
     streams := (streams w ++ opened)%list |}.

End Internal.

(* ===================================================================== *)
(** ** The import endpoint client, [src/client/import.ts] *)
(* ===================================================================== *)

Module ImportClient.
Import Js Internal.

(** [File = { name, data }]. *)
Record File := mkFile { name : string; data : string }.

(** The descriptor [addFiles] hands to [requestJson]; [boundary] is the
    boundary of the [new FormData()] it fills. *)
Definition addFilesRequest (boundary : string) (params : ClientParams)
    (files : list File) : RequestData :=
  let body :=
    List.fold_left
      (fun form file =>
         append form {| field := "files"; Js.data := data file; filename := name file |})
      files {| Js.boundary := boundary; entries := [] |} in
  {| method := POST;
     path := Client.projectUrl params ++ "/import";
     req_body := FormBody body;
     query := None;
     headers := None |}.

Definition conflictsOverrideAllRequest (params : ClientParams) (languageId : Z)
    : RequestData :=
  {| method := PUT;
     path := Client.projectUrl params ++ "/import/result/languages/"
             ++ showNumber languageId ++ "/resolve-all/set-override";
     req_body := JsBody VUndefined;
     query := None;
     headers := None |}.

Definition conflictsOverrideAll (params : ClientParams) (languageId : Z) : Promise unit :=
  Client.requestVoid params (conflictsOverrideAllRequest params languageId).

Definition conflictsKeepExistingAllRequest (params : ClientParams) (languageId : Z)
    : RequestData :=
  {| method := PUT;
     path := Client.projectUrl params ++ "/import/result/languages/"
             ++ showNumber languageId ++ "/resolve-all/set-keep-existing";
     req_body := JsBody VUndefined;
     query := None;
     headers := None |}.

Definition conflictsKeepExistingAll (params : ClientParams) (languageId : Z)
    : Promise unit :=
  Client.requestVoid params (conflictsKeepExistingAllRequest params languageId).

(** [forceMode] is [req?.forceMode]: undefined or the mode's name. *)
Definition applyImportRequest (params : ClientParams) (forceMode : option string)
    : RequestData :=
  {| method := PUT;
     path := Client.projectUrl params ++ "/import/apply";
     req_body := JsBody VUndefined;
     query := Some [("forceMode",
                     match forceMode with
                     | Some m => QScalar (PString m)
                     | None => QUndefined
                     end)];
     headers := None |}.

Definition applyImport (params : ClientParams) (forceMode : option string) : Promise unit :=
  Client.requestVoid params (applyImportRequest params forceMode).

Definition deleteImportRequest (params : ClientParams) : RequestData :=
  {| method := DELETE;
     path := Client.projectUrl params ++ "/import";
     req_body := JsBody VUndefined;
     query := None;
     headers := None |}.

Definition deleteImport (params : ClientParams) : Promise unit :=
  Client.requestVoid params (deleteImportRequest params).

(** [e instanceof HttpError && e.response.status === 404]. *)
Definition isNotFound (e : Error) : bool :=
  match e with
  | HttpError response => status response =? 404
  | _ => false
  end.

Definition deleteImportIfExists (params : ClientParams) : Promise unit :=
  tryCatch (deleteImport params)
    (fun e => if isNotFound e then ret tt else throw e).

End ImportClient.

(* ===================================================================== *)
(** ** Sample clients, worlds and descriptors *)
(* ===================================================================== *)

Module Samples.
Import Js Internal.

(** A client bound to project 1337. *)
Definition scopedClient : ClientParams :=
  {| apiUrl := "https://app.tolgee.io";
     apiKey := "tgpak_gfpw2zlpo4qhk53v";
     projectId := Some (Some 1337) |}.

(** A client built with the "no project" sentinel. *)
Definition unscopedClient : ClientParams :=
  {| apiUrl := "https://app.tolgee.io";
     apiKey := "tgpat_xxxxxxxxxx";
     projectId := Some (Some (-1)) |}.

(** A fresh world whose network answers every call with [reply]. *)
Definition worldReplying (reply : FetchReply) : World :=
  {| version := "1.0.0"; network := fun _ => reply; issued := []; streams := [] |}.

Definition twoChunks : Stream := [Chunk "{}"; Chunk EmptyString].

Definition okWorld : World := worldReplying (Reply 200 "OK" (Some twoChunks)).
Definition notFoundWorld : World :=
  worldReplying (Reply 404 "Not Found" (Some [Chunk "gone"])).
Definition serverErrorWorld : World :=
  worldReplying (Reply 500 "Internal Server Error" None).
Definition offlineWorld : World := worldReplying (NetworkFailure "fetch failed").

(** A descriptor with a falsy but defined body. *)
Definition zeroBodyRequest : RequestData :=
  {| method := POST; path := "/v2/projects/1337/keys";
     req_body := JsBody (VNum 0); query := None; headers := None |}.

(** A descriptor with a JSON body that brings its own content type and
    one more header. *)
Definition typedBodyRequest : RequestData :=
  {| method := POST; path := "/v2/projects/1337/keys";
     req_body := JsBody (VObj [("name", VStr "key")]); query := None;
     headers := Some (<["content-type" := "text/plain"]>
                        (<["x-api-key" := "tgpak_other"]>
                           (<["accept" := "application/json"]> ∅))) |}.

(** A descriptor whose path carries a query string of its own. *)
Definition pathWithQueryRequest : RequestData :=
  {| method := PUT; path := "/v2/projects/1337/import/apply?forceMode=KEEP";
     req_body := JsBody VUndefined;
     query := Some [("forceMode", QUndefined)]; headers := None |}.

(** A descriptor with the three kinds of query values. *)
Definition filterRequest : RequestData :=
  {| method := GET; path := "/v2/projects/1337/translations";
     req_body := JsBody VUndefined;
     query := Some [("size", QScalar (PNumber 20));
                    ("languages", QArray [PString "en"; PString "fr"]);
                    ("cursor", QUndefined)];
     headers := None |}.

Definition uploadForm : FormData :=
  {| boundary := "----tolgee"; entries := [mkFormEntry "files" "{}" "en.json"] |}.

Definition uploadRequest : RequestData :=
  {| method := POST; path := "/v2/projects/1337/import";
     req_body := FormBody uploadForm; query := None; headers := None |}.

End Samples.

(* ===================================================================== *)
(** ** The decoding consumers and the upload endpoint *)
(* ===================================================================== *)

Module Consumers.
Import Js Internal.

(** Reading a body stream to its end while keeping what it delivers:
    the bytes of the chunks in order, or the first read failure. *)
Fixpoint readBytes (s : Stream) : Result string * Stream :=
  match s with
  | [] => (Resolved EmptyString, [])
  | Chunk bytes :: rest =>
      match readBytes rest with
      | (Resolved more, unread) => (Resolved (bytes ++ more), unread)
      | (Rejected e, unread) => (Rejected e, unread)
      end
  | ReadFailure msg :: rest => (Rejected (StreamError msg), rest)
  end.

(** Consuming the stream behind a body handle. *)
Definition consume (h : nat) : Promise string :=
  fun w =>
    match streams w !! h with
    | None => (Resolved EmptyString, w)
    | Some s =>
        let '(r, rest) := readBytes s in
        (r, {| version := version w; network := network w;
               issued := issued w; streams := <[h := rest]> (streams w) |})
    end.

(** The bytes behind [r.blob()] and [r.json()]: the whole body, empty
    when the response has no body. *)
Definition Response_bytes (res : Response) : Promise string :=
  match body res with
  | Some h => consume h
  | None => ret EmptyString
  end.

(** [protected async requestBlob(req)]; the blob is its bytes. *)
Definition requestBlob (params : ClientParams) (req : RequestData) : Promise string :=
  res <- Client.request params req ;;
  Response_bytes res.

(** How a [requestJson] promise settles: with the decoded value, with the
    [SyntaxError] of [JSON.parse] on the text received, or with an error
    of the request or of the body stream. *)
Inductive JsonResult :=
| Parsed (v : Value)
| SyntaxError (text : string)
| Failed (e : Error).

Section Json.

(** [JSON.parse]: the value of a text, or nothing when the text is not
    JSON. *)
Variable JSON_parse : string -> option Value.

(** [r.json()]. *)
Definition Response_json (res : Response) : World -> JsonResult * World :=
  fun w =>
    match Response_bytes res w with
    | (Resolved text, w') =>
        (match JSON_parse text with
         | Some v => Parsed v
         | None => SyntaxError text
         end, w')
    | (Rejected e, w') => (Failed e, w')
    end.

(** [protected async requestJson(req)]: [this.request(req).then((r) =>
    r.json())]. *)
Definition requestJson (params : ClientParams) (req : RequestData)
    : World -> JsonResult * World :=
  fun w =>
    match Client.request params req w with
    | (Resolved res, w') => Response_json res w'
    | (Rejected e, w') => (Failed e, w')
    end.

(** [async addFiles(req)]; [boundary] is the boundary of the form it
    builds. *)
Definition addFiles (boundary : string) (params : ClientParams)
    (files : list ImportClient.File) : World -> JsonResult * World :=
  requestJson params (ImportClient.addFilesRequest boundary params files).

End Json.

End Consumers.

(* ===================================================================== *)
(** ** Vocabulary of the further properties *)
(* ===================================================================== *)

Module Vocabulary.
Import Js Internal.

(** A digit or the minus sign. *)
Definition isDecimalChar (a : ascii) : bool :=
  let n := nat_of_ascii a in ((48 <=? n)%nat && (n <=? 57)%nat) || (n =? 45)%nat.

(** Whether every character of [s] satisfies [p]. *)
Fixpoint allChars (p : ascii -> bool) (s : string) : bool :=
  match s with
  | EmptyString => true
  | String a r => p a && allChars p r
  end.

(** Whether the character [c] occurs in [s]. *)
Fixpoint occurs (c : ascii) (s : string) : bool :=
  match s with
  | EmptyString => false
  | String a r => Ascii.eqb a c || occurs c r
  end.

(** The parameters one entry of a query record writes. *)
Definition entryParams (entry : string * QueryValue) : URLSearchParams :=
  match snd entry with
  | QUndefined => []
  | QScalar p => [(fst entry, String_of p)]
  | QArray items => List.map (fun v => (fst entry, String_of v)) items
  end.

(** The parameters of a whole query record, in enumeration order. *)
Definition queryParams (q : Query) : URLSearchParams := List.flat_map entryParams q.

(** The form entry [addFiles] appends for one file. *)
Definition fileEntry (file : ImportClient.File) : FormEntry :=
  {| field := "files"; data := ImportClient.data file; filename := ImportClient.name file |}.

(** The bytes of the chunks of a stream, in order. *)
Definition chunkBytes (s : Stream) : string :=
  String.concat EmptyString
    (List.flat_map (fun ev => match ev with Chunk b => [b] | ReadFailure _ => [] end) s).

Definition isChunk (ev : ReadEvent) : Prop := exists bytes, ev = Chunk bytes.

(** [w'] is [w] after exactly one more call, [call]: the version and the
    network are the same, the streams received before are untouched, and
    at most one stream was added. *)
Definition singleCall (w : World) (call : FetchCall) (w' : World) : Prop :=
  version w' = version w /\
  network w' = network w /\
  issued w' = (issued w ++ [call])%list /\
  exists opened, (length opened <= 1)%nat /\ streams w' = (streams w ++ opened)%list.

(** The handle and stream list a reply's body gives rise to. *)
Definition handleOf (w : World) (b : option Stream) : option nat :=
  match b with Some _ => Some (length (streams w)) | None => None end.

Definition unread (b : option Stream) : list Stream :=
  match b with Some s => [s] | None => [] end.

Definition drained (b : option Stream) : list Stream :=
  match b with Some _ => [[]] | None => [] end.

(** A call without body: only the two mandatory headers, for the version
    [v]. *)
Definition bodilessCall (params : ClientParams) (v method pathname : string)
    (q : URLSearchParams) : FetchCall :=
  {| call_url := {| base := apiUrl params; pathname := pathname; searchParams := q |};
     call_method := method;
     call_headers :=
       <["user-agent" := userAgent v]> (<["x-api-key" := apiKey params]> ∅);
     call_body := None |}.

(** The call that uploads [form] to [pathname]. *)
Definition uploadCall (params : ClientParams) (v pathname : string) (form : FormData)
    : FetchCall :=
  {| call_url := {| base := apiUrl params; pathname := pathname; searchParams := [] |};
     call_method := "POST";
     call_headers :=
       <["user-agent" := userAgent v]>
         (<["content-type" := "multipart/form-data; boundary=" ++ boundary form]>
            (<["x-api-key" := apiKey params]> ∅));
     call_body := Some (BufferBody (getBuffer form)) |}.

(** The result of [JSON.parse] as [requestJson] settles with it. *)
Definition decoded (parse : string -> option Value) (text : string) : Consumers.JsonResult :=
  match parse text with
  | Some v => Consumers.Parsed v
  | None => Consumers.SyntaxError text
  end.

End Vocabulary.

(* ===================================================================== *)
(** ** Further samples *)
(* ===================================================================== *)

Module MoreSamples.
Import Js Internal.

(** A toy [JSON.parse] that knows two texts. *)
Definition toyParse (text : string) : option Value :=
  if String.eqb text "{}" then Some (VObj [])
  else if String.eqb text "null" then Some VNull
  else None.

Definition twoFiles : list ImportClient.File :=
  [ImportClient.mkFile "en.json" "{}"; ImportClient.mkFile "fr.json" "[]"].

(** A world whose answer is a failed read after one chunk. *)
Definition brokenStreamWorld : World :=
  Samples.worldReplying (Reply 200 "OK" (Some [Chunk "ab"; ReadFailure "reset"; Chunk "cd"])).

(** A world that already holds the unread body of an earlier response. *)
Definition busyWorld : World :=
  {| version := "1.0.0";
     network := fun _ => Reply 200 "OK" (Some [Chunk "x"]);
     issued := [];
     streams := [[Chunk "earlier"]] |}.

Definition sortRequest : RequestData :=
  {| method := GET; path := "/v2/projects/1337/keys?page=2&sort=name";
     req_body := JsBody VUndefined;
     query := Some [("sort", QScalar (PString "id")); ("size", QUndefined)];
     headers := None |}.

End MoreSamples.

(* ===================================================================== *)
(** ** Properties of the credential resolver *)
(* ===================================================================== *)

Section CredentialFacts.
Import Credentials.

Lemma sameIdentity_spec a b : sameIdentity a b = true <-> identity a = identity b.
Proof.
  destruct a as [? ? ?|? ? pa ?], b as [? ? ?|? ? pb ?]; simpl;
    try (split; [discriminate | discriminate]); try tauto.
  rewrite Z.eqb_eq. split; [intros -> | intros [= ->]]; reflexivity.
Qed.

Lemma isPAT_identity c : isPAT c = true <-> identity c = IdPAT.
Proof. destruct c; simpl; split; congruence. Qed.

Lemma isPAKfor_identity p c : isPAKfor p c = true <-> identity c = IdPAK p.
Proof.
  destruct c as [? ? ?|? ? pr ?]; simpl; [split; discriminate |].
  rewrite Z.eqb_eq. split; [intros -> | intros [= ->]]; reflexivity.
Qed.

(** Under the invariant, the identity determines the entry. *)
Lemma uniqueIdentities_inj l a b :
  uniqueIdentities l -> In a l -> In b l -> identity a = identity b -> a = b.
Proof.
  unfold uniqueIdentities.
  induction l as [|x l IH]; simpl; [tauto |].
  intros Hnd Ha Hb Hid. inversion Hnd as [|? ? Hnotin Hnd']; subst.
  destruct Ha as [-> | Ha], Hb as [-> | Hb]; auto.
  - exfalso. apply Hnotin. rewrite Hid. apply list_elem_of_In, in_map, Hb.
  - exfalso. apply Hnotin. rewrite <- Hid. apply list_elem_of_In, in_map, Ha.
Qed.

Lemma uniqueIdentities_filter p l :
  uniqueIdentities l -> uniqueIdentities (List.filter p l).
Proof.
  unfold uniqueIdentities.
  induction l as [|x l IH]; simpl; [auto |].
  intros Hnd. inversion Hnd as [|? ? Hnotin Hnd']; subst.
  destruct (p x); simpl; [| auto].
  constructor; [| auto].
  intros Hin. apply Hnotin.
  apply list_elem_of_In, in_map_iff in Hin as (y & Hy & Hin).
  apply filter_In in Hin as [Hin _].
  rewrite <- Hy. apply list_elem_of_In, in_map, Hin.
Qed.

Lemma stored_saveStore_insert d instance l :
  stored (saveStore (<[instance := l]> d)) instance = l.
Proof.
  unfold stored, saveStore, loadStore, credentialsOf. simpl.
  rewrite lookup_insert_eq. reflexivity.
Qed.

Lemma stored_saveStore_insert_ne d instance other l :
  other <> instance ->
  stored (saveStore (<[instance := l]> d)) other = credentialsOf d other.
Proof.
  intros Hne. unfold stored, saveStore, loadStore, credentialsOf. simpl.
  rewrite lookup_insert_ne by congruence. reflexivity.
Qed.

Lemma stored_saveApiKey instance credential f :
  stored (saveApiKey instance credential f) instance =
  (List.filter (fun c => negb (sameIdentity credential c)) (stored f instance)
     ++ [credential])%list.
Proof. unfold saveApiKey. apply stored_saveStore_insert. Qed.

Lemma stored_saveApiKey_ne instance other credential f :
  other <> instance ->
  stored (saveApiKey instance credential f) other = stored f other.
Proof. intros Hne. unfold saveApiKey. apply stored_saveStore_insert_ne, Hne. Qed.

Lemma getApiKey_result now instance projectId f :
  fst (getApiKey now instance projectId f) =
  select projectId (List.filter (isValid now) (stored f instance)).
Proof. reflexivity. Qed.

(** After a resolution, a load shows exactly the valid entries of the
    resolved instance. *)
Lemma getApiKey_stored now instance projectId f :
  stored (snd (getApiKey now instance projectId f)) instance =
  List.filter (isValid now) (stored f instance).
Proof.
  unfold getApiKey. simpl. fold (stored f instance).
  destruct (List.filter (isExpired now) (stored f instance)) as [|x xs] eqn:E.
  - symmetry. apply forallb_filter_id. apply forallb_forall. intros c Hc.
    unfold isValid. destruct (isExpired now c) eqn:Ec; [| reflexivity].
    assert (In c (List.filter (isExpired now) (stored f instance)))
      by (apply filter_In; auto).
    rewrite E in H. destruct H.
  - apply stored_saveStore_insert.
Qed.

Lemma getApiKey_stored_ne now instance other projectId f :
  other <> instance ->
  stored (snd (getApiKey now instance projectId f)) other = stored f other.
Proof.
  intros Hne. unfold getApiKey. simpl. fold (stored f instance).
  destruct (List.filter (isExpired now) (stored f instance)); [reflexivity |].
  apply stored_saveStore_insert_ne, Hne.
Qed.

(** Whatever [select] returns is the key of one of the entries it was
    given. *)
Lemma select_Some projectId valid k :
  select projectId valid = Some k -> exists c, In c valid /\ key c = k.
Proof.
  unfold select.
  destruct (List.find isPAT valid) as [c|] eqn:E1.
  - intros [= <-]. apply find_some in E1 as [Hin _]. eauto.
  - destruct (List.find (isPAKfor projectId) valid) as [c|] eqn:E2; [| discriminate].
    intros [= <-]. apply find_some in E2 as [Hin _]. eauto.
Qed.

End CredentialFacts.

Section CredentialClaims.
Import Credentials.

(** C1. Selection priority of [getApiKey]: when the valid entries of the
    host respect the identity invariant (at most one PAT, at most one PAK
    per project id), a valid PAT stored for the host is returned whatever
    the project id; without a valid PAT, a valid PAK of the requested
    project id is returned; otherwise the result is null, an ordinary
    result of the function. *)
Theorem getApiKey_priority (now : Z) (instance : string) (projectId : Z) (f : AuthFile) :
  let entries := stored f instance in
  let result := fst (getApiKey now instance projectId f) in
  (uniqueIdentities (List.filter (isValid now) entries) ->
   forall c, In c entries -> isPAT c = true -> isValid now c = true ->
             result = Some (key c)) /\
  ((forall c, In c entries -> isPAT c = true -> isValid now c = false) ->
   (uniqueIdentities (List.filter (isValid now) entries) ->
    forall c, In c entries -> isPAKfor projectId c = true -> isValid now c = true ->
              result = Some (key c)) /\
   ((forall c, In c entries -> isPAKfor projectId c = true -> isValid now c = false) ->
    result = None)).
Proof.
  intros entries result. subst result. rewrite getApiKey_result. fold entries.
  unfold select. split.
  - intros Huniq c Hin Hpat Hvalid.
    destruct (List.find isPAT (List.filter (isValid now) entries)) as [c'|] eqn:E.
    + apply find_some in E as [Hin' Hpat'].
      f_equal. f_equal.
      apply (uniqueIdentities_inj (List.filter (isValid now) entries)); auto.
      * apply filter_In. auto.
      * apply isPAT_identity in Hpat, Hpat'. congruence.
    + exfalso. assert (isPAT c = false); [| congruence].
      apply (find_none _ _ E c), filter_In. auto.
  - intros HnoPAT.
    destruct (List.find isPAT (List.filter (isValid now) entries)) as [c'|] eqn:E.
    { apply find_some in E as [Hin' Hpat']. apply filter_In in Hin' as [Hin' Hv].
      rewrite (HnoPAT c' Hin' Hpat') in Hv. discriminate. }
    split.
    + intros Huniq c Hin Hpak Hvalid.
      destruct (List.find (isPAKfor projectId) (List.filter (isValid now) entries))
        as [c'|] eqn:E'.
      * apply find_some in E' as [Hin' Hpak'].
        f_equal. f_equal.
        apply (uniqueIdentities_inj (List.filter (isValid now) entries)); auto.
        -- apply filter_In. auto.
        -- apply isPAKfor_identity in Hpak, Hpak'. congruence.
      * exfalso. assert (isPAKfor projectId c = false); [| congruence].
        apply (find_none _ _ E' c), filter_In. auto.
    + intros HnoPAK.
      destruct (List.find (isPAKfor projectId) (List.filter (isValid now) entries))
        as [c'|] eqn:E'; [| reflexivity].
      apply find_some in E' as [Hin' Hpak']. apply filter_In in Hin' as [Hin' Hv].
      rewrite (HnoPAK c' Hin' Hpak') in Hv. discriminate.
Qed.

(** C2. An expired credential stored for the resolved host is never the
    source of the result of [getApiKey], and the call removes it from the
    persisted store: a later load shows only the valid entries of that
    host, and the other hosts as they were. *)
Theorem getApiKey_prunes_expired (now : Z) (instance : string) (projectId : Z)
    (f : AuthFile) (c : Credential) :
  In c (stored f instance) ->
  isExpired now c = true ->
  let result := fst (getApiKey now instance projectId f) in
  let f' := snd (getApiKey now instance projectId f) in
  (forall k, result = Some k ->
             exists c', In c' (stored f instance) /\ isExpired now c' = false /\ key c' = k) /\
  ((forall c', In c' (stored f instance) -> key c' = key c -> isExpired now c' = true) ->
   result <> Some (key c)) /\
  ~ In c (stored f' instance) /\
  stored f' instance = List.filter (isValid now) (stored f instance) /\
  (forall other, other <> instance -> stored f' other = stored f other).
Proof.
  intros Hin Hexp result f'.
  assert (Hsrc : forall k, result = Some k ->
            exists c', In c' (stored f instance) /\ isExpired now c' = false /\ key c' = k).
  { intros k Hk. subst result. rewrite getApiKey_result in Hk.
    apply select_Some in Hk as (c' & Hc' & Hkey).
    apply filter_In in Hc' as [Hc' Hv]. exists c'. repeat split; auto.
    unfold isValid in Hv. destruct (isExpired now c'); [discriminate | reflexivity]. }
  split; [exact Hsrc |]. split; [| split; [| split]].
  - intros Hall Hres. apply Hsrc in Hres as (c' & Hc' & Hne & Hkey).
    rewrite (Hall c' Hc' Hkey) in Hne. discriminate.
  - subst f'. rewrite getApiKey_stored. intros Hc.
    apply filter_In in Hc as [_ Hv]. unfold isValid in Hv.
    rewrite Hexp in Hv. discriminate.
  - apply getApiKey_stored.
  - intros other Hne. apply getApiKey_stored_ne, Hne.
Qed.

(** C3. [saveApiKey] preserves the store invariant (at most one PAT per
    host, at most one PAK per host and project id): after the save the
    host holds the new credential as its only entry of that identity,
    entries of any other identity on that host are kept as they were and
    in their order, and the other hosts are unchanged. *)
Theorem saveApiKey_replaces (instance : string) (credential : Credential) (f : AuthFile) :
  let f' := saveApiKey instance credential f in
  (storeInvariant f -> storeInvariant f') /\
  List.filter (sameIdentity credential) (stored f' instance) = [credential] /\
  (forall c, identity c <> identity credential ->
             (In c (stored f' instance) <-> In c (stored f instance))) /\
  List.filter (fun c => negb (sameIdentity credential c)) (stored f' instance) =
    List.filter (fun c => negb (sameIdentity credential c)) (stored f instance) /\
  (forall other, other <> instance -> stored f' other = stored f other).
Proof.
  intros f'. subst f'.
  assert (Hself : sameIdentity credential credential = true)
    by (apply sameIdentity_spec; reflexivity).
  assert (Hnone : forall l,
    List.filter (sameIdentity credential)
      (List.filter (fun c => negb (sameIdentity credential c)) l) = []).
  { induction l as [|x l IH]; simpl; [reflexivity |].
    destruct (sameIdentity credential x) eqn:E; simpl; [exact IH |].
    rewrite E. exact IH. }
  assert (Hidem : forall l,
    List.filter (fun c => negb (sameIdentity credential c))
      (List.filter (fun c => negb (sameIdentity credential c)) l) =
    List.filter (fun c => negb (sameIdentity credential c)) l).
  { induction l as [|x l IH]; simpl; [reflexivity |].
    destruct (sameIdentity credential x) eqn:E; simpl; [exact IH |].
    rewrite E. simpl. f_equal. exact IH. }
  split; [| split; [| split; [| split]]].
  - intros Hinv other. destruct (decide (other = instance)) as [-> | Hne].
    + rewrite stored_saveApiKey. unfold uniqueIdentities.
      rewrite map_app. simpl. apply NoDup_app. split; [| split].
      * apply uniqueIdentities_filter, Hinv.
      * intros i Hi Hi'. apply list_elem_of_In in Hi, Hi'.
        destruct Hi' as [<- | []].
        apply in_map_iff in Hi as (y & Hy & Hi).
        apply filter_In in Hi as [_ Hi].
        symmetry in Hy. apply sameIdentity_spec in Hy. rewrite Hy in Hi. discriminate.
      * apply NoDup_singleton.
    + rewrite stored_saveApiKey_ne by exact Hne. apply Hinv.
  - rewrite stored_saveApiKey, List.filter_app, Hnone. simpl. rewrite Hself. reflexivity.
  - intros c Hc. rewrite stored_saveApiKey, in_app_iff, filter_In. simpl.
    assert (sameIdentity credential c = false) as Hs.
    { destruct (sameIdentity credential c) eqn:E; [| reflexivity].
      apply sameIdentity_spec in E. congruence. }
    rewrite Hs. simpl. split.
    + intros [[H _] | [<- | []]]; [exact H | congruence].
    + intros H. left. auto.
  - rewrite stored_saveApiKey, List.filter_app, Hidem. simpl. rewrite Hself. simpl.
    apply app_nil_r.
  - intros other Hne. apply stored_saveApiKey_ne, Hne.
Qed.

End CredentialClaims.

Section CredentialTests.
Import Credentials.

(** The assertions of "loads the correct token based on instance and
    project" and "prioritizes personal access tokens over project api
    keys". *)
Example loads_the_correct_token :
  fst (getApiKey testNow TG_1 1 loadFixture) = Some (key PAK_1) /\
  fst (getApiKey testNow TG_1 2 loadFixture) = Some (key PAK_2) /\
  fst (getApiKey testNow TG_1 3 loadFixture) = None /\
  fst (getApiKey testNow TG_1 (-1) loadFixture) = None /\
  fst (getApiKey testNow TG_2 (-1) loadFixture) = Some (key PAT_1) /\
  fst (getApiKey testNow TG_2 1 loadFixture) = Some (key PAT_1).
Proof. vm_compute. repeat split. Qed.

(** "does not load expired keys". *)
Example does_not_load_expired_keys :
  stored loadFixture TG_3 = [PAT_4] /\
  fst (getApiKey testNow TG_3 (-1) loadFixture) = None /\
  stored (snd (getApiKey testNow TG_3 (-1) loadFixture)) TG_3 = [].
Proof. vm_compute. repeat split. Qed.

(** "can store multiple project keys for the same instance". *)
Example stores_multiple_project_keys :
  stored (saveApiKey TG_1 PAK_3 (saveApiKey TG_1 PAK_2 (saveApiKey TG_1 PAK_1 None))) TG_1
  = [PAK_2; PAK_3].
Proof. vm_compute. reflexivity. Qed.

Lemma getApiKey_priority_witness :
  fst (getApiKey testNow TG_2 1 loadFixture) = Some (key PAT_1) /\
  fst (getApiKey testNow TG_1 2 loadFixture) = Some (key PAK_2) /\
  fst (getApiKey testNow TG_1 3 loadFixture) = None.
Proof.
  split; [| split].
  - apply (proj1 (getApiKey_priority testNow TG_2 1 loadFixture)).
    + vm_compute. constructor; [apply not_elem_of_nil | constructor].
    + vm_compute. left. reflexivity.
    + reflexivity.
    + reflexivity.
  - refine (proj1 (proj2 (getApiKey_priority testNow TG_1 2 loadFixture) _) _ PAK_2 _ _ _).
    + intros c Hin. vm_compute in Hin.
      destruct Hin as [<- | [<- | []]]; discriminate.
    + vm_compute. constructor; [rewrite list_elem_of_In; simpl; intuition discriminate |].
      constructor; [apply not_elem_of_nil | constructor].
    + vm_compute. left. reflexivity.
    + reflexivity.
    + reflexivity.
  - refine (proj2 (proj2 (getApiKey_priority testNow TG_1 3 loadFixture) _) _).
    + intros c Hin. vm_compute in Hin.
      destruct Hin as [<- | [<- | []]]; discriminate.
    + intros c Hin. vm_compute in Hin.
      destruct Hin as [<- | [<- | []]]; discriminate.
Defined.

Lemma getApiKey_prunes_expired_witness :
  fst (getApiKey testNow TG_3 (-1) loadFixture) <> Some (key PAT_4) /\
  ~ In PAT_4 (stored (snd (getApiKey testNow TG_3 (-1) loadFixture)) TG_3).
Proof.
  assert (Hin : In PAT_4 (stored loadFixture TG_3)) by (vm_compute; left; reflexivity).
  assert (Hexp : isExpired testNow PAT_4 = true) by reflexivity.
  pose proof (getApiKey_prunes_expired testNow TG_3 (-1) loadFixture PAT_4 Hin Hexp) as H.
  destruct H as (_ & Hkey & Hgone & _).
  split; [| exact Hgone].
  apply Hkey. intros c' Hc'. vm_compute in Hc'.
  destruct Hc' as [<- | []]. reflexivity.
Defined.

Lemma saveApiKey_replaces_witness :
  storeInvariant (saveApiKey TG_1 PAK_3 (saveApiKey TG_1 PAK_2 (saveApiKey TG_1 PAK_1 None))).
Proof.
  apply (proj1 (saveApiKey_replaces TG_1 PAK_3 _)).
  apply (proj1 (saveApiKey_replaces TG_1 PAK_2 _)).
  apply (proj1 (saveApiKey_replaces TG_1 PAK_1 _)).
  intros instance. vm_compute. constructor.
Defined.

End CredentialTests.

(* ===================================================================== *)
(** ** Properties of the request executor *)
(* ===================================================================== *)

Section ExecutorFacts.
Import Js Internal.

(** [fetch] issues the call it is given. *)
Lemma fetch_issued call w :
  issued (snd (fetch call w)) = (issued w ++ [call])%list.
Proof.
  unfold fetch. destruct (network w call) as [msg | st txt [s|]]; reflexivity.
Qed.

(** [fetch] answers as the network does; a body stream is opened unread
    behind a fresh handle. *)
Lemma fetch_reply call w :
  match network w call with
  | NetworkFailure msg =>
      fst (fetch call w) = Rejected (FetchError msg) /\
      streams (snd (fetch call w)) = streams w
  | Reply st txt None =>
      fst (fetch call w) = Resolved (mkResponse st txt None) /\
      streams (snd (fetch call w)) = streams w
  | Reply st txt (Some s) =>
      fst (fetch call w) = Resolved (mkResponse st txt (Some (length (streams w)))) /\
      streams (snd (fetch call w)) = (streams w ++ [s])%list
  end.
Proof.
  unfold fetch. destruct (network w call) as [msg | st txt [s|]]; split; reflexivity.
Qed.

Lemma fetch_stable call w :
  version (snd (fetch call w)) = version w /\
  network (snd (fetch call w)) = network w.
Proof.
  unfold fetch. destruct (network w call) as [msg | st txt [s|]]; split; reflexivity.
Qed.

(** [request] is one [fetch] of the call with the user agent set,
    followed by the status check. *)
Lemma request_unfold url method hs body w :
  Internal.request url method hs body w =
  let call := mkFetchCall url method (<["user-agent" := userAgent (version w)]> hs) body in
  match fetch call w with
  | (Resolved res, w') =>
      if ok res then (Resolved res, w') else (Rejected (HttpError res), w')
  | (Rejected e, w') => (Rejected e, w')
  end.
Proof.
  unfold Internal.request, bind, getVersion, throw, ret. simpl.
  destruct (fetch _ w) as [[res | e] w']; [| reflexivity].
  destruct (ok res); reflexivity.
Qed.

Lemma Client_request_unfold params req w :
  Client.request params req w =
  match fetch (callOf params req (version w)) w with
  | (Resolved res, w') =>
      if ok res then (Resolved res, w') else (Rejected (HttpError res), w')
  | (Rejected e, w') => (Rejected e, w')
  end.
Proof.
  unfold Client.request, callOf.
  destruct (Client.encodeBody (req_body req) _) as [hs body] eqn:E.
  rewrite request_unfold. simpl.
  destruct (URL_new (path req) (apiUrl params)) as [b p sp]. simpl.
  destruct (query req); reflexivity.
Qed.

(** Every execution issues exactly one call, the one of [callOf]. *)
Lemma Client_request_issued params req w :
  issued (snd (Client.request params req w)) =
  (issued w ++ [callOf params req (version w)])%list.
Proof.
  rewrite Client_request_unfold.
  pose proof (fetch_issued (callOf params req (version w)) w) as H.
  destruct (fetch _ w) as [[res | e] w']; simpl in *; [| exact H].
  destruct (ok res); exact H.
Qed.

Lemma Client_request_streams params req w :
  streams (snd (Client.request params req w)) =
  streams (snd (fetch (callOf params req (version w)) w)).
Proof.
  rewrite Client_request_unfold.
  destruct (fetch _ w) as [[res | e] w']; simpl; [| reflexivity].
  destruct (ok res); reflexivity.
Qed.

(** A truthy JavaScript value always has a JSON text. *)
Lemma truthy_stringify v : truthy v = true -> is_Some (JSON_stringify v).
Proof. destruct v; simpl; intros H; try discriminate; eexists; reflexivity. Qed.

Lemma readAll_resolved s rest : readAll s = (Resolved tt, rest) -> rest = [].
Proof.
  induction s as [|[bytes | msg] s IH]; simpl; intros H.
  - congruence.
  - auto.
  - discriminate.
Qed.

(** A stream of chunks only is read without failure. *)
Lemma readAll_chunks s :
  Forall (fun ev => exists bytes, ev = Chunk bytes) s -> readAll s = (Resolved tt, []).
Proof.
  induction 1 as [|ev s [bytes ->] _ IH]; simpl; auto.
Qed.

Lemma prefix_app (s t : string) : String.prefix s (s ++ t) = true.
Proof.
  induction s as [|a s IH]; simpl; [destruct t; reflexivity |].
  destruct (ascii_dec a a); [exact IH | contradiction].
Qed.

End ExecutorFacts.

Section QueryFacts.
Import Js Internal.

Lemma getAll_app k (ps qs : URLSearchParams) :
  searchParams_getAll k (ps ++ qs)%list =
  (searchParams_getAll k ps ++ searchParams_getAll k qs)%list.
Proof. unfold searchParams_getAll. rewrite List.filter_app, List.map_app. reflexivity. Qed.

Lemma getAll_append k name value ps :
  searchParams_getAll k (searchParams_append name value ps) =
  (searchParams_getAll k ps ++ (if String.eqb name k then [value] else []))%list.
Proof.
  unfold searchParams_append. rewrite getAll_app. f_equal.
  unfold searchParams_getAll. simpl. destruct (String.eqb name k); reflexivity.
Qed.

Lemma getAll_removed k ps :
  searchParams_getAll k (List.filter (fun p => negb (String.eqb (fst p) k)) ps) = [].
Proof.
  unfold searchParams_getAll.
  induction ps as [|[n v] ps IH]; simpl; [reflexivity |].
  destruct (String.eqb n k) eqn:E; simpl; [exact IH |].
  rewrite E. exact IH.
Qed.

Lemma getAll_removed_other k name ps :
  k <> name ->
  searchParams_getAll k (List.filter (fun p => negb (String.eqb (fst p) name)) ps) =
  searchParams_getAll k ps.
Proof.
  intros Hne. unfold searchParams_getAll.
  induction ps as [|[n v] ps IH]; simpl; [reflexivity |].
  destruct (String.eqb n name) eqn:E; simpl.
  - apply String.eqb_eq in E. subst n.
    destruct (String.eqb name k) eqn:E'; [| exact IH].
    apply String.eqb_eq in E'. congruence.
  - destruct (String.eqb n k); simpl; [f_equal |]; exact IH.
Qed.

Lemma getAll_set_same k value ps :
  searchParams_getAll k (searchParams_set k value ps) = [value].
Proof.
  induction ps as [|[n v] ps IH]; simpl.
  - unfold searchParams_getAll. simpl. rewrite String.eqb_refl. reflexivity.
  - destruct (String.eqb n k) eqn:E.
    + change (searchParams_getAll k ((k, value) :: ?l))
        with (searchParams_getAll k ([(k, value)] ++ l)%list).
      rewrite getAll_app, getAll_removed.
      unfold searchParams_getAll. simpl. rewrite String.eqb_refl. reflexivity.
    + unfold searchParams_getAll in *. simpl. rewrite E. exact IH.
Qed.

Lemma getAll_set_other k name value ps :
  k <> name ->
  searchParams_getAll k (searchParams_set name value ps) = searchParams_getAll k ps.
Proof.
  intros Hne.
  assert (Hnk : String.eqb name k = false) by (apply String.eqb_neq; congruence).
  induction ps as [|[n v] ps IH]; simpl.
  - unfold searchParams_getAll. simpl. rewrite Hnk. reflexivity.
  - destruct (String.eqb n name) eqn:E.
    + apply String.eqb_eq in E. subst n.
      pose proof (getAll_removed_other k name ps Hne) as H.
      unfold searchParams_getAll in *. simpl. rewrite Hnk. exact H.
    + unfold searchParams_getAll in *. simpl.
      destruct (String.eqb n k); simpl; [f_equal |]; exact IH.
Qed.

Lemma getAll_appendAll k name items ps :
  searchParams_getAll k
    (List.fold_left (fun acc v => searchParams_append name (String_of v) acc) items ps) =
  (searchParams_getAll k ps
     ++ (if String.eqb name k then List.map String_of items else []))%list.
Proof.
  revert ps. induction items as [|v items IH]; intros ps; simpl.
  - destruct (String.eqb name k); rewrite app_nil_r; reflexivity.
  - rewrite IH, getAll_append.
    destruct (String.eqb name k); simpl; rewrite <- ?app_assoc; reflexivity.
Qed.

Lemma getAll_addParam_same k val ps :
  searchParams_getAll k (Client.addParam ps (k, val)) =
  contribution val (searchParams_getAll k ps).
Proof.
  destruct val as [|p|items]; simpl.
  - reflexivity.
  - apply getAll_set_same.
  - rewrite getAll_appendAll, String.eqb_refl. reflexivity.
Qed.

Lemma getAll_addParam_other k name val ps :
  k <> name ->
  searchParams_getAll k (Client.addParam ps (name, val)) = searchParams_getAll k ps.
Proof.
  intros Hne. destruct val as [|p|items]; simpl.
  - reflexivity.
  - apply getAll_set_other, Hne.
  - rewrite getAll_appendAll.
    assert (String.eqb name k = false) as -> by (apply String.eqb_neq; congruence).
    apply app_nil_r.
Qed.

Lemma getAll_addQuery_other k (q : Query) ps :
  ~ In k (List.map fst q) ->
  searchParams_getAll k (Client.addQuery q ps) = searchParams_getAll k ps.
Proof.
  unfold Client.addQuery. revert ps.
  induction q as [|[name val] q IH]; intros ps Hk; cbn [List.fold_left];
    simpl in Hk; [reflexivity |].
  rewrite IH by tauto. apply getAll_addParam_other. intros ->. tauto.
Qed.

(** On a record (no key twice), the loop gives every key the
    contribution of its own entry. *)
Lemma getAll_addQuery k val (q : Query) ps :
  NoDup (List.map fst q) ->
  In (k, val) q ->
  searchParams_getAll k (Client.addQuery q ps) =
  contribution val (searchParams_getAll k ps).
Proof.
  unfold Client.addQuery. revert ps.
  induction q as [|[name v] q IH]; intros ps Hnd Hin; cbn [List.fold_left];
    simpl in Hnd, Hin; [tauto |].
  apply NoDup_cons in Hnd as [Hfresh Hnd].
  rewrite list_elem_of_In in Hfresh.
  destruct Hin as [[= -> ->] | Hin].
  - fold (Client.addQuery q (Client.addParam ps (k, val))).
    rewrite getAll_addQuery_other by exact Hfresh.
    apply getAll_addParam_same.
  - rewrite IH by assumption.
    assert (k <> name) as Hne.
    { intros ->. apply Hfresh. change name with (fst (name, val)). apply in_map, Hin. }
    rewrite getAll_addParam_other by exact Hne. reflexivity.
Qed.

End QueryFacts.

Section ExecutorClaims.
Import Js Internal.

(** C4, as the code has it. The executor issues one call.  When the
    descriptor's body is absent or falsy (undefined, null, false, 0, the
    empty string) the call has no body and the executor adds no
    content-type header: the header is whatever the descriptor's own
    headers say, if anything.  A multipart form is sent as its encoded
    bytes under [multipart/form-data] with its boundary.  Any other
    truthy body is sent as its JSON text under [application/json]. *)
Theorem request_body_encoding (params : ClientParams) (req : RequestData) (w : World) :
  let call := callOf params req (version w) in
  issued (snd (Client.request params req w)) = (issued w ++ [call])%list /\
  (Client.bodyTruthy (req_body req) = false ->
     call_body call = None /\
     call_headers call !! "content-type" = default ∅ (headers req) !! "content-type") /\
  (forall form, req_body req = FormBody form ->
     call_body call = Some (BufferBody (getBuffer form)) /\
     call_headers call !! "content-type" =
       Some ("multipart/form-data; boundary=" ++ getBoundary form)) /\
  (forall v, req_body req = JsBody v -> truthy v = true ->
     (exists text, JSON_stringify v = Some text /\ call_body call = Some (TextBody text)) /\
     call_headers call !! "content-type" = Some "application/json").
Proof.
  intros call. split; [apply Client_request_issued |].
  subst call. unfold callOf, Client.encodeBody. simpl.
  split; [| split].
  - intros Hfalsy. rewrite Hfalsy. simpl. split; [reflexivity |].
    rewrite !lookup_insert_ne by discriminate. reflexivity.
  - intros form ->. simpl. split; [reflexivity |].
    rewrite lookup_insert_ne by discriminate. apply lookup_insert_eq.
  - intros v -> Hv. simpl. rewrite Hv. simpl. split.
    + destruct (truthy_stringify v Hv) as [text Htext].
      exists text. rewrite Htext. split; reflexivity.
    + rewrite lookup_insert_ne by discriminate. apply lookup_insert_eq.
Qed.

(** C4 fails as stated: a descriptor whose body is the number 0, a
    defined value, is sent without a body and without a content type
    instead of the JSON text [0] under [application/json]. *)
Lemma request_zero_body_not_encoded :
  exists call,
    issued (snd (Client.request Samples.scopedClient Samples.zeroBodyRequest Samples.okWorld))
      = [call] /\
    req_body Samples.zeroBodyRequest = JsBody (VNum 0) /\
    JSON_stringify (VNum 0) = Some "0" /\
    call_body call = None /\
    call_body call <> Some (TextBody "0") /\
    call_headers call !! "content-type" = None /\
    call_headers call !! "content-type" <> Some "application/json".
Proof.
  eexists. split; [vm_compute; reflexivity |].
  repeat split; try reflexivity; vm_compute; discriminate.
Qed.

(** The three body shapes on the sample descriptors. *)
Example request_body_encoding_samples :
  call_body (callOf Samples.scopedClient Samples.filterRequest "1.0.0") = None /\
  call_headers (callOf Samples.scopedClient Samples.filterRequest "1.0.0") !! "content-type"
    = None /\
  call_headers (callOf Samples.scopedClient Samples.uploadRequest "1.0.0") !! "content-type"
    = Some "multipart/form-data; boundary=----tolgee" /\
  call_body (callOf Samples.scopedClient Samples.uploadRequest "1.0.0")
    = Some (BufferBody (getBuffer Samples.uploadForm)) /\
  call_body (callOf Samples.scopedClient Samples.typedBodyRequest "1.0.0")
    = Some (TextBody ("{" ++ quote "name" ++ ":" ++ quote "key" ++ "}")).
Proof. vm_compute. repeat split. Qed.

(** C5. One execution classifies the single response by its status: a
    status outside 200-299 rejects with an [HttpError] that carries the
    response as received, a status inside resolves to that response, and
    in both cases the body stream is left as the network delivered it
    (nothing is read).  An [HttpError] arises in no other way. *)
Theorem request_status_classification (params : ClientParams) (req : RequestData)
    (w : World) :
  let call := callOf params req (version w) in
  let result := fst (Client.request params req w) in
  let w' := snd (Client.request params req w) in
  issued w' = (issued w ++ [call])%list /\
  match network w call with
  | NetworkFailure msg =>
      result = Rejected (FetchError msg) /\ streams w' = streams w
  | Reply st txt b =>
      let res := mkResponse st txt
                   (match b with Some _ => Some (length (streams w)) | None => None end) in
      (if (200 <=? st) && (st <=? 299)
       then result = Resolved res
       else result = Rejected (HttpError res)) /\
      streams w' = (streams w ++ match b with Some s => [s] | None => [] end)%list /\
      (forall h, body res = Some h -> streams w' !! h = b)
  end /\
  ((exists res, result = Rejected (HttpError res)) <->
   (exists st txt b, network w call = Reply st txt b /\ ~ (200 <= st <= 299))).
Proof.
  intros call result w'.
  split; [apply Client_request_issued |].
  subst result w'. rewrite Client_request_unfold. fold call.
  pose proof (fetch_reply call w) as Hreply.
  destruct (network w call) as [msg | st txt b] eqn:Hnet.
  - destruct Hreply as [Hres Hstreams].
    destruct (fetch call w) as [r w1]; simpl in Hres, Hstreams; subst r.
    split; [split; [reflexivity | exact Hstreams] |].
    split; [intros [res [=]] | intros (st & txt & b & [=] & _)].
  - assert (Hfetch : fst (fetch call w) =
              Resolved (mkResponse st txt
                (match b with Some _ => Some (length (streams w)) | None => None end)) /\
            streams (snd (fetch call w)) =
              (streams w ++ match b with Some s => [s] | None => [] end)%list).
    { destruct b as [s|]; destruct Hreply as [-> ->]; split; try reflexivity.
      symmetry. apply app_nil_r. }
    clear Hreply. destruct Hfetch as [Hres Hstreams].
    destruct (fetch call w) as [r w1]; simpl in Hres, Hstreams; subst r.
    unfold ok. simpl.
    assert (Hbody : forall h,
              match b with Some _ => Some (length (streams w)) | None => None end = Some h ->
              streams w1 !! h = b).
    { intros h Hh. destruct b as [s|]; [| discriminate].
      injection Hh as <-. rewrite Hstreams. apply list_lookup_middle. reflexivity. }
    destruct (Z.leb_spec 200 st), (Z.leb_spec st 299); simpl;
      (split; [split; [reflexivity | split; [exact Hstreams | exact Hbody]] |]);
      (split;
       [ intros [res Hr];
         first [discriminate Hr | exists st, txt, b; split; [reflexivity | lia]]
       | intros (st' & txt' & b' & [= <- <- <-] & Hst);
         first [exfalso; lia | eexists; reflexivity] ]).
Qed.

End ExecutorClaims.

Section QueryAndHeaderClaims.
Import Js Internal.

(** C6, as the code has it. The query record of a descriptor is applied
    to the URL parsed from the path, which may already carry parameters
    of its own.  In the URL of the issued call, a key with a defined
    scalar value occurs exactly once, with that value; a key with a list
    value keeps what the path gave it and gains one occurrence per
    element, in list order; a key whose value is undefined gains nothing
    (no empty value is written for it), so it has only what the path gave
    it and is absent when the path has no query string. *)
Theorem request_query_serialization (params : ClientParams) (req : RequestData)
    (q : Query) (w : World) :
  query req = Some q ->
  NoDup (List.map fst q) ->
  let call := callOf params req (version w) in
  let fromPath := searchParams (URL_new (path req) (apiUrl params)) in
  let sent := searchParams (call_url call) in
  issued (snd (Client.request params req w)) = (issued w ++ [call])%list /\
  forall k val, In (k, val) q ->
    match val with
    | QScalar p => searchParams_getAll k sent = [String_of p]
    | QArray items =>
        searchParams_getAll k sent =
        (searchParams_getAll k fromPath ++ List.map String_of items)%list
    | QUndefined => searchParams_getAll k sent = searchParams_getAll k fromPath
    end /\
    (fromPath = [] ->
     match val with
     | QScalar p => searchParams_getAll k sent = [String_of p]
     | QArray items => searchParams_getAll k sent = List.map String_of items
     | QUndefined => searchParams_getAll k sent = []
     end).
Proof.
  intros Hq Hnd call fromPath sent.
  split; [apply Client_request_issued |].
  intros k val Hin.
  assert (H : searchParams_getAll k sent =
              contribution val (searchParams_getAll k fromPath)).
  { subst sent call fromPath. unfold callOf. simpl. rewrite Hq.
    apply getAll_addQuery; assumption. }
  split.
  - destruct val; exact H.
  - intros Hempty. rewrite Hempty in H. destruct val; exact H.
Qed.

Lemma request_query_serialization_witness :
  searchParams_getAll "size"
    (searchParams (call_url (callOf Samples.scopedClient Samples.filterRequest "1.0.0")))
    = ["20"] /\
  searchParams_getAll "languages"
    (searchParams (call_url (callOf Samples.scopedClient Samples.filterRequest "1.0.0")))
    = ["en"; "fr"] /\
  searchParams_getAll "cursor"
    (searchParams (call_url (callOf Samples.scopedClient Samples.filterRequest "1.0.0")))
    = [].
Proof.
  assert (Hq : query Samples.filterRequest =
               Some [("size", QScalar (PNumber 20));
                     ("languages", QArray [PString "en"; PString "fr"]);
                     ("cursor", QUndefined)]) by reflexivity.
  assert (Hnd : NoDup (List.map fst
                 [("size", QScalar (PNumber 20));
                  ("languages", QArray [PString "en"; PString "fr"]);
                  ("cursor", QUndefined)])).
  { apply (bool_decide_unpack _). vm_compute. exact I. }
  pose proof (request_query_serialization Samples.scopedClient Samples.filterRequest _
                Samples.okWorld Hq Hnd) as [_ H].
  split; [| split].
  - destruct (H "size" (QScalar (PNumber 20))) as [H1 _]; [simpl; tauto |].
    exact H1.
  - destruct (H "languages" (QArray [PString "en"; PString "fr"])) as [_ H2];
      [simpl; tauto |].
    apply H2. reflexivity.
  - destruct (H "cursor" QUndefined) as [_ H3]; [simpl; tauto |].
    apply H3. reflexivity.
Defined.

(** C6 fails as stated: the key [forceMode] has the value undefined in
    the query record, yet the issued URL carries [forceMode=KEEP], which
    the path brought along. *)
Lemma request_undefined_key_kept_from_path :
  exists call,
    issued (snd (Client.request Samples.scopedClient Samples.pathWithQueryRequest
                   Samples.okWorld)) = [call] /\
    query Samples.pathWithQueryRequest = Some [("forceMode", QUndefined)] /\
    searchParams (call_url call) = [("forceMode", "KEEP")] /\
    searchParams_getAll "forceMode" (searchParams (call_url call)) <> [].
Proof.
  eexists. split; [vm_compute; reflexivity |].
  repeat split; try reflexivity. vm_compute. discriminate.
Qed.

(** C10, as the code has it. In the issued call the [x-api-key] header is
    the key the client is bound to and the [user-agent] header is the
    Tolgee-CLI identifier of the current version, whatever the descriptor
    supplied under those names.  Every other header of the descriptor is
    passed through unchanged, except [content-type] when the descriptor
    has a truthy body: the executor then sets it itself. *)
Theorem request_mandatory_headers (params : ClientParams) (req : RequestData) (w : World) :
  let call := callOf params req (version w) in
  let supplied : Headers := default ∅ (headers req) in
  issued (snd (Client.request params req w)) = (issued w ++ [call])%list /\
  call_headers call !! "x-api-key" = Some (apiKey params) /\
  call_headers call !! "user-agent" =
    Some ("Tolgee-CLI/" ++ version w ++ " (+https://github.com/tolgee/tolgee-cli)") /\
  (forall name, name <> "x-api-key" -> name <> "user-agent" ->
     name <> "content-type" \/ Client.bodyTruthy (req_body req) = false ->
     call_headers call !! name = supplied !! name) /\
  (Client.bodyTruthy (req_body req) = true ->
   call_headers call !! "content-type" =
     Some (match req_body req with
           | FormBody form => "multipart/form-data; boundary=" ++ getBoundary form
           | JsBody _ => "application/json"
           end)).
Proof.
  intros call supplied.
  split; [apply Client_request_issued |].
  subst call supplied. unfold callOf, Client.encodeBody. simpl.
  split; [| split; [| split]].
  - rewrite lookup_insert_ne by discriminate.
    destruct (Client.bodyTruthy (req_body req)); [destruct (req_body req) |]; simpl;
      rewrite ?lookup_insert_ne by discriminate; apply lookup_insert_eq.
  - apply lookup_insert_eq.
  - intros name Hkey Hagent Hother.
    rewrite lookup_insert_ne by congruence.
    destruct (Client.bodyTruthy (req_body req)) eqn:Htruthy.
    + destruct Hother as [Hct | ?]; [| discriminate].
      destruct (req_body req); simpl;
        rewrite !lookup_insert_ne by congruence; reflexivity.
    + simpl. rewrite lookup_insert_ne by congruence. reflexivity.
  - intros ->. rewrite lookup_insert_ne by discriminate.
    destruct (req_body req); simpl; apply lookup_insert_eq.
Qed.

(** C10 fails as stated: the descriptor supplies [content-type:
    text/plain], a header other than the two mandatory ones, and the
    issued call carries [application/json] instead. *)
Lemma request_content_type_overridden :
  exists call,
    issued (snd (Client.request Samples.scopedClient Samples.typedBodyRequest
                   Samples.okWorld)) = [call] /\
    default ∅ (headers Samples.typedBodyRequest) !! "content-type" = Some "text/plain" /\
    call_headers call !! "content-type" = Some "application/json" /\
    call_headers call !! "content-type" <>
      default ∅ (headers Samples.typedBodyRequest) !! "content-type".
Proof.
  eexists. split; [vm_compute; reflexivity |].
  repeat split; try (vm_compute; reflexivity). vm_compute. discriminate.
Qed.

End QueryAndHeaderClaims.

Section OutcomeFacts.
Import Js Internal.

Lemma fetch_outcome call w :
  fetch call w =
  match network w call with
  | NetworkFailure msg => (Rejected (FetchError msg), afterCall w call [])
  | Reply st txt None => (Resolved (mkResponse st txt None), afterCall w call [])
  | Reply st txt (Some s) =>
      (Resolved (mkResponse st txt (Some (length (streams w)))), afterCall w call [s])
  end.
Proof.
  unfold fetch, afterCall.
  destruct (network w call) as [msg | st txt [s|]]; rewrite ?app_nil_r; reflexivity.
Qed.

(** The complete outcome of one execution, by the network's answer. *)
Lemma Client_request_outcome params req w :
  Client.request params req w =
  match network w (callOf params req (version w)) with
  | NetworkFailure msg =>
      (Rejected (FetchError msg), afterCall w (callOf params req (version w)) [])
  | Reply st txt None =>
      (if (200 <=? st) && (st <=? 299)
       then Resolved (mkResponse st txt None)
       else Rejected (HttpError (mkResponse st txt None)),
       afterCall w (callOf params req (version w)) [])
  | Reply st txt (Some s) =>
      (if (200 <=? st) && (st <=? 299)
       then Resolved (mkResponse st txt (Some (length (streams w))))
       else Rejected (HttpError (mkResponse st txt (Some (length (streams w))))),
       afterCall w (callOf params req (version w)) [s])
  end.
Proof.
  rewrite Client_request_unfold, fetch_outcome.
  destruct (network w _) as [msg | st txt [s|]]; [reflexivity | |];
    unfold ok; simpl; destruct ((200 <=? st) && (st <=? 299)); reflexivity.
Qed.

Lemma drain_fresh w call s :
  drain (length (streams w)) (afterCall w call [s]) =
  (fst (readAll s), afterCall w call [snd (readAll s)]).
Proof.
  unfold drain, afterCall. simpl.
  rewrite list_lookup_middle by reflexivity.
  destruct (readAll s) as [r rest]. simpl. f_equal. f_equal.
  rewrite insert_app_r_alt by lia. rewrite Nat.sub_diag. reflexivity.
Qed.

(** The complete outcome of [requestVoid], by the network's answer. *)
Lemma requestVoid_outcome params req w :
  Client.requestVoid params req w =
  match network w (callOf params req (version w)) with
  | NetworkFailure msg =>
      (Rejected (FetchError msg), afterCall w (callOf params req (version w)) [])
  | Reply st txt None =>
      (if (200 <=? st) && (st <=? 299)
       then Resolved tt
       else Rejected (HttpError (mkResponse st txt None)),
       afterCall w (callOf params req (version w)) [])
  | Reply st txt (Some s) =>
      if (200 <=? st) && (st <=? 299)
      then (fst (readAll s), afterCall w (callOf params req (version w)) [snd (readAll s)])
      else (Rejected (HttpError (mkResponse st txt (Some (length (streams w))))),
            afterCall w (callOf params req (version w)) [s])
  end.
Proof.
  unfold Client.requestVoid, bind. rewrite Client_request_outcome.
  destruct (network w _) as [msg | st txt [s|]]; [reflexivity | |];
    destruct ((200 <=? st) && (st <=? 299)); try reflexivity.
  simpl. apply drain_fresh.
Qed.

End OutcomeFacts.

Section ConsumerClaims.
Import Js Internal.

Lemma readAll_failure s :
  (exists msg, In (ReadFailure msg) s) ->
  exists msg, fst (readAll s) = Rejected (StreamError msg).
Proof.
  induction s as [|[bytes | msg'] s IH]; simpl; intros [msg Hin].
  - destruct Hin.
  - destruct Hin as [[=] | Hin]. apply IH. eauto.
  - eauto.
Qed.

(** C8. Whenever [requestVoid] resolves, the request resolved to a
    response and, if that response has a body, its stream has been read to
    completion: nothing of it is left unread.  It does resolve on a
    successful response whose stream delivers its chunks, and a stream
    that fails while being read makes it reject instead. *)
Theorem requestVoid_drains (params : ClientParams) (req : RequestData) (w : World) :
  let call := callOf params req (version w) in
  let result := fst (Client.requestVoid params req w) in
  let w' := snd (Client.requestVoid params req w) in
  (result = Resolved tt ->
   exists res w1,
     Client.request params req w = (Resolved res, w1) /\
     forall h, body res = Some h ->
               is_Some (streams w1 !! h) /\ streams w' !! h = Some []) /\
  (forall st txt s,
     network w call = Reply st txt (Some s) -> 200 <= st <= 299 ->
     Forall (fun ev => exists bytes, ev = Chunk bytes) s ->
     result = Resolved tt /\ streams w' = (streams w ++ [[]])%list) /\
  (forall st txt s,
     network w call = Reply st txt (Some s) -> 200 <= st <= 299 ->
     (exists msg, In (ReadFailure msg) s) ->
     exists msg, result = Rejected (StreamError msg)).
Proof.
  intros call result w'. subst result w'.
  rewrite requestVoid_outcome, Client_request_outcome. fold call.
  split; [| split].
  - destruct (network w call) as [msg | st txt [s|]]; simpl.
    + discriminate.
    + destruct ((200 <=? st) && (st <=? 299)); simpl; [| discriminate].
      intros Hres. destruct (readAll s) as [r rest] eqn:Hread. simpl in *. subst r.
      apply readAll_resolved in Hread. subst rest.
      eexists _, _. split; [reflexivity |]. simpl.
      intros h [= <-]. rewrite !list_lookup_middle by reflexivity.
      split; [eexists |]; reflexivity.
    + destruct ((200 <=? st) && (st <=? 299)); simpl; [| discriminate].
      intros _. eexists _, _. split; [reflexivity |]. simpl. discriminate.
  - intros st txt s -> Hst Hchunks.
    assert ((200 <=? st) && (st <=? 299) = true) as -> by lia.
    rewrite (readAll_chunks s Hchunks). simpl. split; reflexivity.
  - intros st txt s -> Hst Hfail.
    assert ((200 <=? st) && (st <=? 299) = true) as -> by lia.
    simpl. apply readAll_failure, Hfail.
Qed.

(** The drain on the sample world: both chunks are consumed. *)
Example requestVoid_drains_sample :
  fst (Client.requestVoid Samples.scopedClient Samples.filterRequest Samples.okWorld)
    = Resolved tt /\
  streams (snd (Client.requestVoid Samples.scopedClient Samples.filterRequest Samples.okWorld))
    = [[]].
Proof. vm_compute. split; reflexivity. Qed.

End ConsumerClaims.

Section ImportClaims.
Import Js Internal.

(** C7. [deleteImportIfExists] resolves when [deleteImport] rejects with
    an [HttpError] whose response has status 404; any other rejection of
    [deleteImport] (an [HttpError] of another status, a failed fetch, a
    failed body read) is its own outcome unchanged, as is a success.  In
    terms of the network: a 404 answer resolves, another non-2xx answer
    rejects with the [HttpError] of that status, no answer rejects with
    the fetch error. *)
Theorem deleteImportIfExists_swallows_only_404 (params : ClientParams) (w : World) :
  let call := callOf params (ImportClient.deleteImportRequest params) (version w) in
  let attempt := ImportClient.deleteImport params w in
  let outcome := ImportClient.deleteImportIfExists params w in
  (forall res, fst attempt = Rejected (HttpError res) -> status res = 404 ->
               outcome = (Resolved tt, snd attempt)) /\
  (forall e, fst attempt = Rejected e ->
             ~ (exists res, e = HttpError res /\ status res = 404) ->
             outcome = attempt) /\
  (fst attempt = Resolved tt -> outcome = attempt) /\
  (forall txt b, network w call = Reply 404 txt b -> fst outcome = Resolved tt) /\
  (forall st txt b, network w call = Reply st txt b ->
                    ~ (200 <= st <= 299) -> st <> 404 ->
                    exists res, fst outcome = Rejected (HttpError res) /\ status res = st) /\
  (forall msg, network w call = NetworkFailure msg ->
               fst outcome = Rejected (FetchError msg)).
Proof.
  intros call attempt outcome.
  assert (Hcatch : outcome =
            match attempt with
            | (Resolved a, w1) => (Resolved a, w1)
            | (Rejected e, w1) =>
                if ImportClient.isNotFound e then (Resolved tt, w1) else (Rejected e, w1)
            end).
  { subst outcome attempt. unfold ImportClient.deleteImportIfExists, tryCatch.
    destruct (ImportClient.deleteImport params w) as [[a | e] w1]; [reflexivity |].
    destruct (ImportClient.isNotFound e); reflexivity. }
  assert (Hattempt : attempt = Client.requestVoid params
                                 (ImportClient.deleteImportRequest params) w)
    by reflexivity.
  split; [| split; [| split; [| split; [| split]]]].
  - intros res Hrej Hst. rewrite Hcatch.
    destruct attempt as [r w1]. simpl in *. subst r. simpl.
    rewrite Hst. reflexivity.
  - intros e Hrej Hother. rewrite Hcatch.
    destruct attempt as [r w1]. simpl in *. subst r.
    destruct e as [res | msg | msg]; simpl; try reflexivity.
    destruct (Z.eqb_spec (status res) 404) as [Hst | Hst]; [| reflexivity].
    exfalso. apply Hother. eauto.
  - intros Hok. rewrite Hcatch. destruct attempt as [r w1]. simpl in *. subst r.
    reflexivity.
  - intros txt b Hnet. rewrite Hcatch, Hattempt, requestVoid_outcome.
    fold call. rewrite Hnet. destruct b as [s|]; reflexivity.
  - intros st txt b Hnet Hst Hne. rewrite Hcatch, Hattempt, requestVoid_outcome.
    fold call. rewrite Hnet.
    assert ((200 <=? st) && (st <=? 299) = false) as Hrange by lia.
    assert ((st =? 404) = false) as H404 by lia.
    destruct b as [s|]; rewrite Hrange; simpl; rewrite H404;
      eexists; split; reflexivity.
  - intros msg Hnet. rewrite Hcatch, Hattempt, requestVoid_outcome.
    fold call. rewrite Hnet. reflexivity.
Qed.

(** The helper on the sample worlds. *)
Example deleteImportIfExists_samples :
  fst (ImportClient.deleteImportIfExists Samples.scopedClient Samples.notFoundWorld)
    = Resolved tt /\
  fst (ImportClient.deleteImportIfExists Samples.scopedClient Samples.serverErrorWorld)
    = Rejected (HttpError (mkResponse 500 "Internal Server Error" None)) /\
  fst (ImportClient.deleteImportIfExists Samples.scopedClient Samples.offlineWorld)
    = Rejected (FetchError "fetch failed") /\
  fst (ImportClient.deleteImportIfExists Samples.scopedClient Samples.okWorld)
    = Resolved tt.
Proof. vm_compute. repeat split. Qed.

(** The project URL by the state of the [projectId] key: a key that is
    present with a value other than -1 gives [/v2/projects/] followed by
    the rendering of that value, an absent key or -1 gives [/v2/projects],
    and every path of the import endpoints starts with the project URL. *)
Lemma projectUrl_scoping (params : ClientParams) :
  (forall p, projectId params = Some p -> p <> Some (-1) ->
     Client.projectUrl params = "/v2/projects/" ++ Client.showProjectId p) /\
  (forall n, projectId params = Some (Some n) -> n <> -1 ->
     Client.projectUrl params = "/v2/projects/" ++ showNumber n) /\
  (projectId params = None \/ projectId params = Some (Some (-1)) ->
     Client.projectUrl params = "/v2/projects") /\
  (forall boundary files languageId forceMode,
     Forall (fun r => String.prefix (Client.projectUrl params) (path r) = true)
       [ImportClient.addFilesRequest boundary params files;
        ImportClient.conflictsOverrideAllRequest params languageId;
        ImportClient.conflictsKeepExistingAllRequest params languageId;
        ImportClient.applyImportRequest params forceMode;
        ImportClient.deleteImportRequest params]).
Proof.
  assert (Hscoped : forall p, projectId params = Some p -> p <> Some (-1) ->
            Client.projectUrl params = "/v2/projects/" ++ Client.showProjectId p).
  { intros p Hp Hne. unfold Client.projectUrl. rewrite Hp.
    rewrite bool_decide_eq_false_2 by exact Hne. reflexivity. }
  split; [exact Hscoped |]. split; [| split].
  - intros n Hn Hne. apply (Hscoped (Some n) Hn). congruence.
  - intros [H | H]; unfold Client.projectUrl; rewrite H; reflexivity.
  - intros boundary files languageId forceMode.
    repeat constructor; simpl; apply prefix_app.
Qed.

(** C9 fails on the code where no project id is configured by way of an
    undefined value.  For a client built with [projectId: undefined], which
    [projectId?: number] admits, the key is in the parameters and its value
    is not -1, so the test of [projectUrl] passes and the project URL is
    [/v2/projects/undefined] instead of the unscoped [/v2/projects]; the
    import endpoints then address paths under it. *)
Theorem projectUrl_undefined_project_id (url key : string) :
  Client.projectUrl {| apiUrl := url; apiKey := key; projectId := Some None |}
    = "/v2/projects/undefined" /\
  Client.projectUrl {| apiUrl := url; apiKey := key; projectId := Some None |}
    <> "/v2/projects" /\
  path (ImportClient.deleteImportRequest
          {| apiUrl := url; apiKey := key; projectId := Some None |})
    = "/v2/projects/undefined/import".
Proof.
  split; [reflexivity |]. split; [| reflexivity].
  unfold Client.projectUrl. simpl. discriminate.
Qed.

(** The project URL of the sample clients. *)
Example projectUrl_samples :
  Client.projectUrl Samples.scopedClient = "/v2/projects/1337" /\
  Client.projectUrl Samples.unscopedClient = "/v2/projects" /\
  path (ImportClient.deleteImportRequest Samples.scopedClient) = "/v2/projects/1337/import".
Proof. vm_compute. repeat split. Qed.

End ImportClaims.

(* ===================================================================== *)
(** ** Further properties: the query loop *)
(* ===================================================================== *)

Section QueryOrder.
Import Js Internal Vocabulary.

Lemma searchParams_set_fresh name value (ps : URLSearchParams) :
  ~ In name (List.map fst ps) ->
  searchParams_set name value ps = (ps ++ [(name, value)])%list.
Proof.
  induction ps as [|[n v] ps IH]; simpl; intros Hfresh; [reflexivity |].
  destruct (String.eqb_spec n name) as [-> | Hne]; [tauto |].
  f_equal. apply IH. tauto.
Qed.

Lemma appendAll_app name items (ps : URLSearchParams) :
  List.fold_left (fun acc v => searchParams_append name (String_of v) acc) items ps =
  (ps ++ List.map (fun v => (name, String_of v)) items)%list.
Proof.
  revert ps. induction items as [|v items IH]; intros ps; simpl.
  - symmetry. apply app_nil_r.
  - rewrite IH. unfold searchParams_append. rewrite <- app_assoc. reflexivity.
Qed.

Lemma addParam_fresh (ps : URLSearchParams) entry :
  ~ In (fst entry) (List.map fst ps) ->
  Client.addParam ps entry = (ps ++ entryParams entry)%list.
Proof.
  destruct entry as [k [|p|items]]; unfold entryParams; simpl; intros Hfresh.
  - symmetry. apply app_nil_r.
  - apply searchParams_set_fresh, Hfresh.
  - apply appendAll_app.
Qed.

Lemma entryParams_keys entry k :
  In k (List.map fst (entryParams entry)) -> k = fst entry.
Proof.
  destruct entry as [name [|p|items]]; unfold entryParams; simpl.
  - tauto.
  - intros [<- | []]. reflexivity.
  - rewrite List.map_map. simpl. intros Hin.
    apply in_map_iff in Hin as (x & <- & _). reflexivity.
Qed.

(** On parameters that share no key with the record, the loop appends
    what each entry writes, entry after entry. *)
Lemma addQuery_fresh (q : Query) (ps : URLSearchParams) :
  NoDup (List.map fst q) ->
  (forall k, In k (List.map fst q) -> ~ In k (List.map fst ps)) ->
  Client.addQuery q ps = (ps ++ queryParams q)%list.
Proof.
  unfold Client.addQuery, queryParams. revert ps.
  induction q as [|entry q IH]; intros ps Hnd Hdisj; cbn [List.fold_left List.flat_map].
  - symmetry. apply app_nil_r.
  - simpl in Hnd. apply NoDup_cons in Hnd as [Hfresh Hnd].
    rewrite list_elem_of_In in Hfresh.
    rewrite addParam_fresh by (apply Hdisj; simpl; tauto).
    rewrite IH; [apply eq_sym, app_assoc | exact Hnd |].
    intros k Hk Hin. rewrite List.map_app, in_app_iff in Hin.
    destruct Hin as [Hin | Hin].
    + apply (Hdisj k); simpl; tauto.
    + apply entryParams_keys in Hin. subst k. tauto.
Qed.

(** X1. When no key of the query record occurs in the path's own query
    string, the parameters of the issued URL are those of the path
    followed by the record's, in the record's enumeration order: one pair
    per scalar, one per list element in list order, none for undefined. *)
Theorem request_query_in_enumeration_order (params : ClientParams) (req : RequestData)
    (q : Query) (w : World) :
  query req = Some q ->
  NoDup (List.map fst q) ->
  (forall k, In k (List.map fst q) ->
             ~ In k (List.map fst (searchParams (URL_new (path req) (apiUrl params))))) ->
  exists call,
    issued (snd (Client.request params req w)) = (issued w ++ [call])%list /\
    searchParams (call_url call) =
      (searchParams (URL_new (path req) (apiUrl params)) ++ queryParams q)%list.
Proof.
  intros Hq Hnd Hdisj. exists (callOf params req (version w)).
  split; [apply Client_request_issued |].
  unfold callOf. simpl. rewrite Hq. apply addQuery_fresh; assumption.
Qed.

Lemma request_query_in_enumeration_order_witness :
  exists call,
    issued (snd (Client.request Samples.scopedClient Samples.filterRequest Samples.okWorld))
      = [call] /\
    searchParams (call_url call) = [("size", "20"); ("languages", "en"); ("languages", "fr")].
Proof.
  apply (request_query_in_enumeration_order Samples.scopedClient Samples.filterRequest
           [("size", QScalar (PNumber 20));
            ("languages", QArray [PString "en"; PString "fr"]);
            ("cursor", QUndefined)] Samples.okWorld).
  - reflexivity.
  - apply (bool_decide_unpack _). vm_compute. exact I.
  - intros k _ Hin. vm_compute in Hin. exact Hin.
Defined.

(** X2. A key the query record does not mention keeps exactly the values
    the path's own query string gives it, in their order. *)
Theorem request_query_keeps_other_keys (params : ClientParams) (req : RequestData)
    (q : Query) (w : World) (k : string) :
  query req = Some q ->
  ~ In k (List.map fst q) ->
  exists call,
    issued (snd (Client.request params req w)) = (issued w ++ [call])%list /\
    searchParams_getAll k (searchParams (call_url call)) =
      searchParams_getAll k (searchParams (URL_new (path req) (apiUrl params))).
Proof.
  intros Hq Hk. exists (callOf params req (version w)).
  split; [apply Client_request_issued |].
  unfold callOf. simpl. rewrite Hq. apply getAll_addQuery_other, Hk.
Qed.

Lemma request_query_keeps_other_keys_witness :
  exists call,
    issued (snd (Client.request Samples.scopedClient MoreSamples.sortRequest Samples.okWorld))
      = [call] /\
    searchParams_getAll "page" (searchParams (call_url call)) = ["2"].
Proof.
  apply (request_query_keeps_other_keys Samples.scopedClient MoreSamples.sortRequest
           [("sort", QScalar (PString "id")); ("size", QUndefined)] Samples.okWorld "page").
  - reflexivity.
  - simpl. intros [H | [H | []]]; discriminate H.
Defined.

Lemma addQuery_nothing (q : Query) (ps : URLSearchParams) :
  (forall k val, In (k, val) q -> val = QUndefined \/ val = QArray []) ->
  Client.addQuery q ps = ps.
Proof.
  unfold Client.addQuery.
  induction q as [|[k val] q IH]; intros Hall; cbn [List.fold_left]; [reflexivity |].
  assert (Client.addParam ps (k, val) = ps) as ->.
  { destruct (Hall k val) as [-> | ->]; [left; reflexivity | |]; reflexivity. }
  apply IH. intros k' val' Hin. apply (Hall k' val'). right. exact Hin.
Qed.

(** X3. A query record that is empty, or whose values are all undefined or
    empty lists, changes nothing: the execution has the same outcome and
    leaves the same world as that of the descriptor without a query. *)
Theorem request_query_without_values (params : ClientParams) (req : RequestData)
    (q : Query) (w : World) :
  query req = Some q ->
  (forall k val, In (k, val) q -> val = QUndefined \/ val = QArray []) ->
  Client.request params req w =
  Client.request params
    {| method := method req; path := path req; req_body := req_body req;
       query := None; headers := headers req |} w.
Proof.
  intros Hq Hall. rewrite !Client_request_unfold.
  assert (callOf params req (version w) =
          callOf params {| method := method req; path := path req;
                           req_body := req_body req; query := None;
                           headers := headers req |} (version w)) as ->; [| reflexivity].
  unfold callOf. simpl. rewrite Hq, (addQuery_nothing q _ Hall). reflexivity.
Qed.

Lemma request_query_without_values_witness :
  Client.request Samples.scopedClient
    (ImportClient.applyImportRequest Samples.scopedClient None) Samples.okWorld =
  Client.request Samples.scopedClient
    {| method := PUT; path := "/v2/projects/1337/import/apply";
       req_body := JsBody VUndefined; query := None; headers := None |} Samples.okWorld.
Proof.
  apply (request_query_without_values Samples.scopedClient
           (ImportClient.applyImportRequest Samples.scopedClient None)
           [("forceMode", QUndefined)] Samples.okWorld).
  - reflexivity.
  - intros k val [[= <- <-] | []]. left. reflexivity.
Defined.

End QueryOrder.

(* ===================================================================== *)
(** ** Further properties: project URLs and the import endpoints *)
(* ===================================================================== *)

Section PathFacts.
Import Js Internal Vocabulary.

Lemma occurs_app c (s t : string) : occurs c (s ++ t) = occurs c s || occurs c t.
Proof.
  induction s as [|a s IH]; simpl; [reflexivity |].
  rewrite IH. apply orb_assoc.
Qed.

Lemma cut_absent c s : occurs c s = false -> cut c s = (s, None).
Proof.
  induction s as [|a s IH]; simpl; [reflexivity |].
  destruct (Ascii.eqb a c); simpl; [discriminate |].
  intros H. rewrite (IH H). reflexivity.
Qed.

(** A path without [?] and [#] parses to itself, with no parameters. *)
Lemma URL_new_plain p b :
  occurs "?"%char p = false -> occurs "#"%char p = false ->
  URL_new p b = {| base := b; pathname := p; searchParams := [] |}.
Proof.
  intros Hq Hh. unfold URL_new. rewrite (cut_absent _ _ Hh), (cut_absent _ _ Hq).
  reflexivity.
Qed.

Lemma string_of_uint_decimal d : allChars isDecimalChar (NilEmpty.string_of_uint d) = true.
Proof. induction d; simpl; auto. Qed.

Lemma showNumber_decimal n : allChars isDecimalChar (showNumber n) = true.
Proof.
  unfold showNumber. destruct (Z.to_int n) as [d | d]; simpl;
    apply string_of_uint_decimal.
Qed.

Lemma allChars_occurs p c s :
  allChars p s = true -> p c = false -> occurs c s = false.
Proof.
  intros Hall Hc. induction s as [|a s IH]; simpl in *; [reflexivity |].
  apply andb_true_iff in Hall as [Ha Hs]. rewrite (IH Hs), orb_false_r.
  destruct (Ascii.eqb_spec a c) as [-> | _]; [congruence | reflexivity].
Qed.

Lemma showNumber_plain n c : isDecimalChar c = false -> occurs c (showNumber n) = false.
Proof. apply allChars_occurs, showNumber_decimal. Qed.

Lemma showProjectId_plain p c :
  isDecimalChar c = false -> occurs c "undefined" = false ->
  occurs c (Client.showProjectId p) = false.
Proof.
  intros Hd Hu. destruct p as [n |]; simpl; [apply showNumber_plain, Hd | exact Hu].
Qed.

Lemma projectUrl_plain params c :
  isDecimalChar c = false -> occurs c "/v2/projects/undefined" = false ->
  occurs c (Client.projectUrl params) = false.
Proof.
  intros Hd Hu.
  assert (Hprefix : occurs c "/v2/projects" = false).
  { change "/v2/projects/undefined" with ("/v2/projects" ++ "/undefined") in Hu.
    rewrite occurs_app in Hu. apply orb_false_iff in Hu. tauto. }
  assert (Hundef : occurs c "undefined" = false).
  { change "/v2/projects/undefined" with ("/v2/projects/" ++ "undefined") in Hu.
    rewrite occurs_app in Hu. apply orb_false_iff in Hu. tauto. }
  assert (Hslash : occurs c "/v2/projects/" = false).
  { change "/v2/projects/undefined" with ("/v2/projects/" ++ "undefined") in Hu.
    rewrite occurs_app in Hu. apply orb_false_iff in Hu. tauto. }
  unfold Client.projectUrl. destruct (projectId params) as [p |]; [| exact Hprefix].
  destruct (negb _); [| exact Hprefix].
  rewrite occurs_app, Hslash. simpl. apply showProjectId_plain; assumption.
Qed.

Lemma showNumber_inj n m : showNumber n = showNumber m -> n = m.
Proof.
  unfold showNumber. intros H.
  apply DecimalZ.to_int_inj.
  apply (f_equal NilEmpty.int_of_string) in H.
  rewrite !NilEmpty.isi in H. congruence.
Qed.

Lemma string_app_inv_head (s t u : string) : s ++ t = s ++ u -> t = u.
Proof. induction s as [|a s IH]; simpl; [tauto |]. intros [= H]. auto. Qed.

Lemma showNumber_not_undefined n : showNumber n <> "undefined".
Proof.
  intros H. pose proof (showNumber_decimal n) as Hd. rewrite H in Hd. discriminate Hd.
Qed.

Lemma showProjectId_inj p p' :
  Client.showProjectId p = Client.showProjectId p' -> p = p'.
Proof.
  destruct p as [n |], p' as [m |]; simpl; intros H.
  - f_equal. apply showNumber_inj, H.
  - destruct (showNumber_not_undefined n H).
  - destruct (showNumber_not_undefined m (eq_sym H)).
  - reflexivity.
Qed.

End PathFacts.

(* ===================================================================== *)
(** ** Further properties: the response consumers *)
(* ===================================================================== *)

Section ConsumerFacts.
Import Js Internal Consumers Vocabulary.

Lemma string_app_empty (s : string) : s ++ EmptyString = s.
Proof.
  induction s as [|a s IH]; [reflexivity |].
  change (String a (s ++ EmptyString) = String a s). f_equal. exact IH.
Qed.

Lemma concat_empty_cons (b : string) (l : list string) :
  String.concat EmptyString (b :: l) = b ++ String.concat EmptyString l.
Proof. destruct l; simpl; [symmetry; apply string_app_empty | reflexivity]. Qed.

Lemma chunkBytes_cons bytes s : chunkBytes (Chunk bytes :: s) = bytes ++ chunkBytes s.
Proof. apply concat_empty_cons. Qed.

Lemma readBytes_chunks s :
  Forall isChunk s -> readBytes s = (Resolved (chunkBytes s), []).
Proof.
  induction 1 as [|ev s [bytes ->] _ IH]; [reflexivity |].
  cbn [readBytes]. rewrite IH, chunkBytes_cons. reflexivity.
Qed.

Lemma readBytes_resolved s text rest :
  readBytes s = (Resolved text, rest) -> rest = [] /\ Forall isChunk s /\ text = chunkBytes s.
Proof.
  revert text rest. induction s as [|[bytes | msg] s IH]; simpl; intros text rest H.
  - injection H as <- <-. repeat split. constructor.
  - destruct (readBytes s) as [[more | e] left'] eqn:E; [| discriminate].
    injection H as <- <-. destruct (IH _ _ eq_refl) as (-> & Hall & ->).
    repeat split.
    + constructor; [eexists; reflexivity | exact Hall].
    + symmetry. apply chunkBytes_cons.
  - discriminate.
Qed.

Lemma readBytes_failure pre msg post :
  Forall isChunk pre ->
  readBytes (pre ++ ReadFailure msg :: post)%list = (Rejected (StreamError msg), post).
Proof.
  induction 1 as [|ev s [bytes ->] _ IH]; [reflexivity |].
  simpl. rewrite IH. reflexivity.
Qed.

Lemma readAll_failure_at pre msg post :
  Forall isChunk pre ->
  readAll (pre ++ ReadFailure msg :: post)%list = (Rejected (StreamError msg), post).
Proof.
  induction 1 as [|ev s [bytes ->] _ IH]; [reflexivity |]. simpl. exact IH.
Qed.

(** Reading for the bytes and reading to discard stop at the same place
    and fail alike. *)
Lemma readBytes_readAll s :
  snd (readBytes s) = snd (readAll s) /\
  (forall e, fst (readBytes s) = Rejected e <-> fst (readAll s) = Rejected e).
Proof.
  induction s as [|[bytes | msg] s [IHs IHf]]; simpl.
  - split; [reflexivity |]. intros e. split; discriminate.
  - destruct (readBytes s) as [[more | e'] left']; simpl in *; split; auto.
    + intros e. rewrite <- IHf. split; discriminate.
  - split; [reflexivity |]. intros e. split; intros [= <-]; reflexivity.
Qed.

Lemma consume_fresh w call s :
  consume (length (streams w)) (afterCall w call [s]) =
  (fst (readBytes s), afterCall w call [snd (readBytes s)]).
Proof.
  unfold consume, afterCall. simpl.
  rewrite list_lookup_middle by reflexivity.
  destruct (readBytes s) as [r rest]. simpl. f_equal. f_equal.
  rewrite insert_app_r_alt by lia. rewrite Nat.sub_diag. reflexivity.
Qed.

(** The complete outcome of [requestBlob], by the network's answer. *)
Lemma requestBlob_outcome params req w :
  requestBlob params req w =
  match network w (callOf params req (version w)) with
  | NetworkFailure msg =>
      (Rejected (FetchError msg), afterCall w (callOf params req (version w)) [])
  | Reply st txt None =>
      (if (200 <=? st) && (st <=? 299)
       then Resolved EmptyString
       else Rejected (HttpError (mkResponse st txt None)),
       afterCall w (callOf params req (version w)) [])
  | Reply st txt (Some s) =>
      if (200 <=? st) && (st <=? 299)
      then (fst (readBytes s), afterCall w (callOf params req (version w)) [snd (readBytes s)])
      else (Rejected (HttpError (mkResponse st txt (Some (length (streams w))))),
            afterCall w (callOf params req (version w)) [s])
  end.
Proof.
  unfold requestBlob, bind. rewrite Client_request_outcome.
  destruct (network w _) as [msg | st txt [s|]]; [reflexivity | |];
    destruct ((200 <=? st) && (st <=? 299)); try reflexivity.
  simpl. apply consume_fresh.
Qed.

(** The complete outcome of [requestJson], by the network's answer. *)
Lemma requestJson_outcome parse params req w :
  requestJson parse params req w =
  match network w (callOf params req (version w)) with
  | NetworkFailure msg =>
      (Failed (FetchError msg), afterCall w (callOf params req (version w)) [])
  | Reply st txt None =>
      (if (200 <=? st) && (st <=? 299)
       then decoded parse EmptyString
       else Failed (HttpError (mkResponse st txt None)),
       afterCall w (callOf params req (version w)) [])
  | Reply st txt (Some s) =>
      if (200 <=? st) && (st <=? 299)
      then (match fst (readBytes s) with
            | Resolved text => decoded parse text
            | Rejected e => Failed e
            end,
            afterCall w (callOf params req (version w)) [snd (readBytes s)])
      else (Failed (HttpError (mkResponse st txt (Some (length (streams w))))),
            afterCall w (callOf params req (version w)) [s])
  end.
Proof.
  unfold requestJson. rewrite Client_request_outcome.
  destruct (network w _) as [msg | st txt [s|]]; [reflexivity | |];
    destruct ((200 <=? st) && (st <=? 299)); try reflexivity.
  unfold Response_json, Response_bytes. simpl. rewrite consume_fresh.
  destruct (readBytes s) as [[text | e] rest]; reflexivity.
Qed.

Lemma singleCall_afterCall w call opened :
  (length opened <= 1)%nat -> singleCall w call (afterCall w call opened).
Proof. intros H. repeat split. exists opened. split; [exact H | reflexivity]. Qed.

Lemma requestVoid_world params req w :
  exists opened, (length opened <= 1)%nat /\
    snd (Client.requestVoid params req w) = afterCall w (callOf params req (version w)) opened.
Proof.
  rewrite requestVoid_outcome.
  destruct (network w _) as [msg | st txt [s|]];
    [exists []
    | destruct ((200 <=? st) && (st <=? 299)); [exists [snd (readAll s)] | exists [s]]
    | destruct ((200 <=? st) && (st <=? 299)); exists []];
    split; simpl; solve [lia | reflexivity].
Qed.

Lemma requestBlob_world params req w :
  exists opened, (length opened <= 1)%nat /\
    snd (requestBlob params req w) = afterCall w (callOf params req (version w)) opened.
Proof.
  rewrite requestBlob_outcome.
  destruct (network w _) as [msg | st txt [s|]];
    [exists []
    | destruct ((200 <=? st) && (st <=? 299)); [exists [snd (readBytes s)] | exists [s]]
    | destruct ((200 <=? st) && (st <=? 299)); exists []];
    split; simpl; solve [lia | reflexivity].
Qed.

Lemma requestJson_world parse params req w :
  exists opened, (length opened <= 1)%nat /\
    snd (requestJson parse params req w) = afterCall w (callOf params req (version w)) opened.
Proof.
  rewrite requestJson_outcome.
  destruct (network w _) as [msg | st txt [s|]];
    [exists []
    | destruct ((200 <=? st) && (st <=? 299)); [exists [snd (readBytes s)] | exists [s]]
    | destruct ((200 <=? st) && (st <=? 299)); exists []];
    split; simpl; solve [lia | reflexivity].
Qed.

End ConsumerFacts.

Section ConsumerProperties.
Import Js Internal Consumers Vocabulary.

(** X4. Whatever the outcome, each of [requestVoid], [requestBlob] and
    [requestJson] issues exactly one call, the one of the descriptor (there
    is no retry), leaves the version and the network as they were, and
    leaves the body streams of earlier responses untouched: at most one
    stream, that of its own response, is added. *)
Theorem consumers_issue_one_call (parse : string -> option Value)
    (params : ClientParams) (req : RequestData) (w : World) :
  singleCall w (callOf params req (version w)) (snd (Client.requestVoid params req w)) /\
  singleCall w (callOf params req (version w)) (snd (requestBlob params req w)) /\
  singleCall w (callOf params req (version w)) (snd (requestJson parse params req w)).
Proof.
  destruct (requestVoid_world params req w) as (o1 & H1 & ->).
  destruct (requestBlob_world params req w) as (o2 & H2 & ->).
  destruct (requestJson_world parse params req w) as (o3 & H3 & ->).
  split; [| split]; apply singleCall_afterCall; assumption.
Qed.

(** X5. A response whose status is outside 200-299 stops all three
    consumers alike: each rejects with the [HttpError] of that response,
    [JSON.parse] plays no part, and the body stream of the response is left
    exactly as it was received, unread. *)
Theorem consumers_stop_at_http_error (parse : string -> option Value)
    (params : ClientParams) (req : RequestData) (w : World)
    (st : Z) (txt : string) (b : option Stream) :
  network w (callOf params req (version w)) = Reply st txt b ->
  ~ (200 <= st <= 299) ->
  let res := mkResponse st txt (handleOf w b) in
  let w' := afterCall w (callOf params req (version w)) (unread b) in
  Client.requestVoid params req w = (Rejected (HttpError res), w') /\
  requestBlob params req w = (Rejected (HttpError res), w') /\
  requestJson parse params req w = (Failed (HttpError res), w').
Proof.
  intros Hnet Hst res w'. subst res w'.
  rewrite requestVoid_outcome, requestBlob_outcome, requestJson_outcome, Hnet.
  assert ((200 <=? st) && (st <=? 299) = false) as -> by lia.
  destruct b as [s|]; repeat split.
Qed.

Lemma consumers_stop_at_http_error_witness :
  Client.requestVoid Samples.scopedClient Samples.filterRequest Samples.notFoundWorld =
    (Rejected (HttpError (mkResponse 404 "Not Found" (Some 0%nat))),
     afterCall Samples.notFoundWorld
       (callOf Samples.scopedClient Samples.filterRequest "1.0.0") [[Chunk "gone"]]) /\
  requestJson MoreSamples.toyParse Samples.scopedClient Samples.filterRequest
    Samples.notFoundWorld =
    (Failed (HttpError (mkResponse 404 "Not Found" (Some 0%nat))),
     afterCall Samples.notFoundWorld
       (callOf Samples.scopedClient Samples.filterRequest "1.0.0") [[Chunk "gone"]]).
Proof.
  assert (Hnet : network Samples.notFoundWorld
                   (callOf Samples.scopedClient Samples.filterRequest
                      (version Samples.notFoundWorld)) =
                 Reply 404 "Not Found" (Some [Chunk "gone"])) by reflexivity.
  assert (Hst : ~ (200 <= 404 <= 299)) by lia.
  destruct (consumers_stop_at_http_error MoreSamples.toyParse Samples.scopedClient
              Samples.filterRequest Samples.notFoundWorld _ _ _ Hnet Hst) as (Hv & _ & Hj).
  split; [exact Hv | exact Hj].
Defined.

(** X6. On a response with a status in 200-299 whose stream delivers only
    chunks, [requestBlob] resolves with the bytes of the chunks in order
    (with no bytes for a response without body) and leaves the stream read
    to its end. *)
Theorem requestBlob_returns_the_bytes (params : ClientParams) (req : RequestData)
    (w : World) (st : Z) (txt : string) (b : option Stream) :
  network w (callOf params req (version w)) = Reply st txt b ->
  200 <= st <= 299 ->
  Forall isChunk (default [] b) ->
  requestBlob params req w =
    (Resolved (chunkBytes (default [] b)),
     afterCall w (callOf params req (version w)) (drained b)).
Proof.
  intros Hnet Hst Hchunks. rewrite requestBlob_outcome, Hnet.
  assert ((200 <=? st) && (st <=? 299) = true) as -> by lia.
  destruct b as [s|]; simpl in *; [| reflexivity].
  rewrite (readBytes_chunks s Hchunks). reflexivity.
Qed.

Lemma requestBlob_returns_the_bytes_witness :
  fst (requestBlob Samples.scopedClient Samples.filterRequest Samples.okWorld) = Resolved "{}" /\
  streams (snd (requestBlob Samples.scopedClient Samples.filterRequest Samples.okWorld)) = [[]].
Proof.
  assert (Hnet : network Samples.okWorld
                   (callOf Samples.scopedClient Samples.filterRequest
                      (version Samples.okWorld)) =
                 Reply 200 "OK" (Some Samples.twoChunks)) by reflexivity.
  assert (Hst : 200 <= 200 <= 299) by lia.
  assert (Hchunks : Forall isChunk (default [] (Some Samples.twoChunks))).
  { repeat constructor; eexists; reflexivity. }
  rewrite (requestBlob_returns_the_bytes _ _ _ _ _ _ Hnet Hst Hchunks).
  split; reflexivity.
Defined.

(** X7. On such a response [requestJson] hands [JSON.parse] the bytes of
    the chunks in order (the empty text when there is no body) and settles
    with its value, or with the [SyntaxError] when the text is not JSON;
    the stream is read to its end in both cases. *)
Theorem requestJson_decodes_the_body (parse : string -> option Value)
    (params : ClientParams) (req : RequestData)
    (w : World) (st : Z) (txt : string) (b : option Stream) :
  network w (callOf params req (version w)) = Reply st txt b ->
  200 <= st <= 299 ->
  Forall isChunk (default [] b) ->
  requestJson parse params req w =
    (decoded parse (chunkBytes (default [] b)),
     afterCall w (callOf params req (version w)) (drained b)).
Proof.
  intros Hnet Hst Hchunks. rewrite requestJson_outcome, Hnet.
  assert ((200 <=? st) && (st <=? 299) = true) as -> by lia.
  destruct b as [s|]; simpl in *; [| reflexivity].
  rewrite (readBytes_chunks s Hchunks). reflexivity.
Qed.

Lemma requestJson_decodes_the_body_witness :
  fst (requestJson MoreSamples.toyParse Samples.scopedClient Samples.filterRequest
         Samples.okWorld) = Parsed (VObj []) /\
  fst (requestJson MoreSamples.toyParse Samples.scopedClient Samples.filterRequest
         Samples.serverErrorWorld)
    = Failed (HttpError (mkResponse 500 "Internal Server Error" None)).
Proof.
  assert (Hnet : network Samples.okWorld
                   (callOf Samples.scopedClient Samples.filterRequest
                      (version Samples.okWorld)) =
                 Reply 200 "OK" (Some Samples.twoChunks)) by reflexivity.
  assert (Hst : 200 <= 200 <= 299) by lia.
  assert (Hchunks : Forall isChunk (default [] (Some Samples.twoChunks))).
  { repeat constructor; eexists; reflexivity. }
  rewrite (requestJson_decodes_the_body MoreSamples.toyParse _ _ _ _ _ _ Hnet Hst Hchunks).
  split; reflexivity.
Defined.

(** X8. A [SyntaxError] from [requestJson] is never an HTTP failure in
    disguise: it arises only after a response with a status in 200-299
    whose body was read to its end, on a text [JSON.parse] rejects. *)
Theorem requestJson_syntax_error_origin (parse : string -> option Value)
    (params : ClientParams) (req : RequestData) (w : World) (text : string) :
  fst (requestJson parse params req w) = SyntaxError text ->
  exists st txt b,
    network w (callOf params req (version w)) = Reply st txt b /\
    200 <= st <= 299 /\
    Forall isChunk (default [] b) /\
    text = chunkBytes (default [] b) /\
    parse text = None /\
    snd (requestJson parse params req w) =
      afterCall w (callOf params req (version w)) (drained b).
Proof.
  rewrite requestJson_outcome.
  destruct (network w _) as [msg | st txt [s|]] eqn:Hnet; simpl; [discriminate | |].
  - destruct ((200 <=? st) && (st <=? 299)) eqn:Hst; simpl; [| discriminate].
    destruct (readBytes s) as [[body | e] rest] eqn:Hread; simpl; [| discriminate].
    unfold decoded. destruct (parse body) eqn:Hparse; [discriminate |].
    intros [= <-]. apply readBytes_resolved in Hread as (-> & Hall & ->).
    exists st, txt, (Some s). repeat split; auto; lia.
  - destruct ((200 <=? st) && (st <=? 299)) eqn:Hst; simpl; [| discriminate].
    unfold decoded. destruct (parse EmptyString) eqn:Hparse; [discriminate |].
    intros [= <-]. exists st, txt, None. repeat split; auto; lia.
Qed.

Lemma requestJson_syntax_error_origin_witness :
  exists st txt b,
    network Samples.okWorld (callOf Samples.scopedClient Samples.filterRequest "1.0.0")
      = Reply st txt b /\
    200 <= st <= 299.
Proof.
  destruct (requestJson_syntax_error_origin (fun _ => None) Samples.scopedClient
              Samples.filterRequest Samples.okWorld "{}" eq_refl)
    as (st & txt & b & Hnet & Hst & _).
  exists st, txt, b. split; assumption.
Defined.

(** X9. When reading the body of a 2xx response fails, all three consumers
    reject with that read failure: the chunks read before it are lost, what
    the stream holds after it stays unread, and [JSON.parse] is not run. *)
Theorem consumers_reject_on_read_failure (parse : string -> option Value)
    (params : ClientParams) (req : RequestData) (w : World)
    (st : Z) (txt : string) (pre post : Stream) (msg : string) :
  network w (callOf params req (version w)) =
    Reply st txt (Some (pre ++ ReadFailure msg :: post)%list) ->
  200 <= st <= 299 ->
  Forall isChunk pre ->
  let w' := afterCall w (callOf params req (version w)) [post] in
  Client.requestVoid params req w = (Rejected (StreamError msg), w') /\
  requestBlob params req w = (Rejected (StreamError msg), w') /\
  requestJson parse params req w = (Failed (StreamError msg), w').
Proof.
  intros Hnet Hst Hpre w'. subst w'.
  rewrite requestVoid_outcome, requestBlob_outcome, requestJson_outcome, Hnet.
  assert ((200 <=? st) && (st <=? 299) = true) as -> by lia.
  rewrite (readAll_failure_at pre msg post Hpre), (readBytes_failure pre msg post Hpre).
  repeat split.
Qed.

Lemma consumers_reject_on_read_failure_witness :
  fst (requestBlob Samples.scopedClient Samples.filterRequest MoreSamples.brokenStreamWorld)
    = Rejected (StreamError "reset") /\
  streams (snd (requestBlob Samples.scopedClient Samples.filterRequest
                  MoreSamples.brokenStreamWorld)) = [[Chunk "cd"]].
Proof.
  assert (Hnet : network MoreSamples.brokenStreamWorld
                   (callOf Samples.scopedClient Samples.filterRequest
                      (version MoreSamples.brokenStreamWorld)) =
                 Reply 200 "OK" (Some ([Chunk "ab"] ++ ReadFailure "reset" :: [Chunk "cd"])%list))
    by reflexivity.
  assert (Hst : 200 <= 200 <= 299) by lia.
  assert (Hpre : Forall isChunk [Chunk "ab"]) by (repeat constructor; eexists; reflexivity).
  destruct (consumers_reject_on_read_failure MoreSamples.toyParse _ _ _ _ _ _ _ _
              Hnet Hst Hpre) as (_ & -> & _).
  split; reflexivity.
Defined.

(** X10. The three consumers leave the same world on every answer of the
    network and fail together: [requestBlob] rejects with an error exactly
    when [requestVoid] rejects with it, and [requestJson] fails with a
    request or stream error exactly when [requestVoid] rejects with it.
    They differ where [requestVoid] resolves: exactly then [requestBlob]
    resolves with the body's bytes, and [requestJson] settles with what
    [JSON.parse] makes of those bytes, the parsed value or a
    [SyntaxError]. *)
Theorem consumers_agree (parse : string -> option Value)
    (params : ClientParams) (req : RequestData) (w : World) :
  snd (requestBlob params req w) = snd (Client.requestVoid params req w) /\
  snd (requestJson parse params req w) = snd (Client.requestVoid params req w) /\
  (forall e, fst (requestBlob params req w) = Rejected e <->
             fst (Client.requestVoid params req w) = Rejected e) /\
  (forall e, fst (requestJson parse params req w) = Failed e <->
             fst (Client.requestVoid params req w) = Rejected e) /\
  (fst (Client.requestVoid params req w) = Resolved tt <->
   exists bytes,
     fst (requestBlob params req w) = Resolved bytes /\
     fst (requestJson parse params req w) = decoded parse bytes) /\
  (forall text, fst (requestJson parse params req w) = SyntaxError text ->
                fst (Client.requestVoid params req w) = Resolved tt /\
                fst (requestBlob params req w) = Resolved text).
Proof.
  assert (Hdecoded : forall bytes e, decoded parse bytes <> Failed e).
  { intros bytes e. unfold decoded. destruct (parse bytes); discriminate. }
  assert (Hsyntax : forall bytes text, decoded parse bytes = SyntaxError text -> bytes = text).
  { intros bytes text. unfold decoded. destruct (parse bytes); [discriminate |].
    intros [= ->]. reflexivity. }
  rewrite requestVoid_outcome, requestBlob_outcome, requestJson_outcome.
  destruct (network w _) as [msg | st txt [s|]].
  - repeat split; try (intros [= <-]; reflexivity); try discriminate.
    intros (bytes & H & _). discriminate H.
  - destruct ((200 <=? st) && (st <=? 299)).
    + destruct (readBytes_readAll s) as [Hsnd Hfst]. simpl.
      rewrite Hsnd. split; [reflexivity |]. split; [reflexivity |].
      split; [exact Hfst |].
      destruct (fst (readBytes s)) as [bytes | e'] eqn:Ebytes.
      * assert (Hvoid : fst (readAll s) = Resolved tt).
        { destruct (fst (readAll s)) as [[] | e]; [reflexivity |].
          pose proof (proj2 (Hfst e) eq_refl) as Hbad. discriminate Hbad. }
        rewrite Hvoid. split; [| split].
        -- intros e. split; [intros H; destruct (Hdecoded _ _ H) | discriminate].
        -- split; [intros _; exists bytes; split; reflexivity | reflexivity].
        -- intros text H. apply Hsyntax in H. subst. split; reflexivity.
      * assert (Hvoid : fst (readAll s) = Rejected e') by (apply Hfst; reflexivity).
        rewrite Hvoid. split; [| split].
        -- intros e. split; intros [= <-]; reflexivity.
        -- split; [discriminate | intros (bytes & H & _); discriminate H].
        -- discriminate.
    + repeat split; try (intros [= <-]; reflexivity); try discriminate.
      intros (bytes & H & _). discriminate H.
  - destruct ((200 <=? st) && (st <=? 299)); simpl.
    + split; [reflexivity |]. split; [reflexivity |]. split; [| split; [| split]].
      * intros e. split; discriminate.
      * intros e. split; [intros H; destruct (Hdecoded _ _ H) | discriminate].
      * split; [intros _; exists EmptyString; split; reflexivity | reflexivity].
      * intros text H. apply Hsyntax in H. subst. split; reflexivity.
    + repeat split; try (intros [= <-]; reflexivity); try discriminate.
      intros (bytes & H & _). discriminate H.
Qed.

(** X11. [deleteImportIfExists] always leaves the world [deleteImport]
    leaves: one call, never a second one.  When it swallows a 404, it
    resolves although the body stream of that 404 response is still
    unread. *)
Theorem deleteImportIfExists_effects (params : ClientParams) (w : World) :
  let call := callOf params (ImportClient.deleteImportRequest params) (version w) in
  snd (ImportClient.deleteImportIfExists params w) = snd (ImportClient.deleteImport params w) /\
  singleCall w call (snd (ImportClient.deleteImportIfExists params w)) /\
  (forall txt s, network w call = Reply 404 txt (Some s) ->
     ImportClient.deleteImportIfExists params w = (Resolved tt, afterCall w call [s])).
Proof.
  intros call.
  assert (Hsame : snd (ImportClient.deleteImportIfExists params w) =
                  snd (ImportClient.deleteImport params w)).
  { unfold ImportClient.deleteImportIfExists, tryCatch.
    destruct (ImportClient.deleteImport params w) as [[a | e] w1]; [reflexivity |].
    destruct (ImportClient.isNotFound e); reflexivity. }
  split; [exact Hsame |]. split.
  - rewrite Hsame. unfold ImportClient.deleteImport.
    destruct (requestVoid_world params (ImportClient.deleteImportRequest params) w)
      as (opened & Hlen & ->).
    apply singleCall_afterCall, Hlen.
  - intros txt s Hnet.
    unfold ImportClient.deleteImportIfExists, tryCatch, ImportClient.deleteImport.
    rewrite requestVoid_outcome. fold call. rewrite Hnet. reflexivity.
Qed.

End ConsumerProperties.

Section EndpointProperties.
Import Js Internal Consumers Vocabulary.

Ltac plain_path :=
  repeat rewrite occurs_app;
  rewrite ?projectUrl_plain, ?showNumber_plain by reflexivity;
  reflexivity.

Lemma requestVoid_issued params req w :
  issued (snd (Client.requestVoid params req w)) =
  (issued w ++ [callOf params req (version w)])%list.
Proof. destruct (requestVoid_world params req w) as (opened & _ & ->). reflexivity. Qed.

(** The call of a descriptor without body, query and headers whose path
    has neither [?] nor [#]. *)
Lemma callOf_bodiless params m p q v :
  occurs "?"%char p = false -> occurs "#"%char p = false ->
  (forall k val, In (k, val) (default [] q) -> val = QUndefined \/ val = QArray []) ->
  callOf params {| method := m; path := p; req_body := JsBody VUndefined;
                   query := q; headers := None |} v =
  bodilessCall params v (methodName m) p [].
Proof.
  intros Hq Hh Hall. unfold callOf, bodilessCall. simpl.
  rewrite (URL_new_plain p _ Hq Hh). simpl.
  destruct q as [q |]; [| reflexivity].
  rewrite (addQuery_nothing q [] Hall). reflexivity.
Qed.

(** X12. What the four bodiless import endpoints send: each issues one
    call with its own method to its own path under the project URL, with no
    body and no headers but [x-api-key] and [user-agent]; the URL has no
    query, except that [applyImport] with a force mode sends exactly
    [forceMode=<mode>]. *)
Theorem import_endpoints_calls (params : ClientParams) (w : World)
    (languageId : Z) (forceMode : option string) :
  issued (snd (ImportClient.deleteImport params w)) =
    (issued w ++ [bodilessCall params (version w) "DELETE"
                    (Client.projectUrl params ++ "/import") []])%list /\
  issued (snd (ImportClient.conflictsOverrideAll params languageId w)) =
    (issued w ++ [bodilessCall params (version w) "PUT"
                    (Client.projectUrl params ++ "/import/result/languages/"
                     ++ showNumber languageId ++ "/resolve-all/set-override") []])%list /\
  issued (snd (ImportClient.conflictsKeepExistingAll params languageId w)) =
    (issued w ++ [bodilessCall params (version w) "PUT"
                    (Client.projectUrl params ++ "/import/result/languages/"
                     ++ showNumber languageId ++ "/resolve-all/set-keep-existing") []])%list /\
  issued (snd (ImportClient.applyImport params forceMode w)) =
    (issued w ++ [bodilessCall params (version w) "PUT"
                    (Client.projectUrl params ++ "/import/apply")
                    match forceMode with
                    | Some mode => [("forceMode", mode)]
                    | None => []
                    end])%list.
Proof.
  unfold ImportClient.deleteImport, ImportClient.conflictsOverrideAll,
    ImportClient.conflictsKeepExistingAll, ImportClient.applyImport.
  rewrite !requestVoid_issued.
  split; [| split; [| split]]; f_equal; f_equal.
  - apply (callOf_bodiless params DELETE _ None); [plain_path | plain_path |].
    intros k val [].
  - apply (callOf_bodiless params PUT _ None); [plain_path | plain_path |].
    intros k val [].
  - apply (callOf_bodiless params PUT _ None); [plain_path | plain_path |].
    intros k val [].
  - destruct forceMode as [mode |].
    + unfold callOf, bodilessCall, ImportClient.applyImportRequest. simpl.
      rewrite URL_new_plain by plain_path. reflexivity.
    + apply (callOf_bodiless params PUT _ (Some [("forceMode", QUndefined)]));
        [plain_path | plain_path |].
      intros k val [[= <- <-] | []]. left. reflexivity.
Qed.

Lemma addFiles_form (files : list ImportClient.File) (form : FormData) :
  List.fold_left
    (fun form file =>
       append form {| field := "files"; Js.data := ImportClient.data file;
                      filename := ImportClient.name file |})
    files form =
  {| boundary := boundary form;
     entries := (entries form ++ List.map fileEntry files)%list |}.
Proof.
  revert form. induction files as [|file files IH]; intros form; simpl.
  - rewrite app_nil_r. destruct form; reflexivity.
  - rewrite IH. unfold append. simpl. rewrite <- app_assoc. reflexivity.
Qed.

(** X13. [addFiles] issues one POST to [<projectUrl>/import] whose body is
    the multipart encoding of a form with one part per file of the request,
    in the request's order, each under the field [files] with the file's
    name and data, announced by a [multipart/form-data] content type with
    the form's boundary.  With no files the body is still sent, holding no
    part. *)
Theorem addFiles_uploads_every_file (parse : string -> option Value) (boundary : string)
    (params : ClientParams) (files : list ImportClient.File) (w : World) :
  issued (snd (addFiles parse boundary params files w)) =
    (issued w ++ [uploadCall params (version w) (Client.projectUrl params ++ "/import")
                    {| Js.boundary := boundary;
                       entries := List.map fileEntry files |}])%list.
Proof.
  unfold addFiles.
  destruct (requestJson_world parse params
              (ImportClient.addFilesRequest boundary params files) w)
    as (opened & _ & ->).
  simpl. f_equal. f_equal.
  unfold callOf, uploadCall, ImportClient.addFilesRequest. simpl.
  rewrite URL_new_plain by plain_path.
  rewrite addFiles_form. reflexivity.
Qed.

(** The upload of two files, and of none. *)
Example addFiles_samples :
  List.map call_body
    (issued (snd (addFiles MoreSamples.toyParse "B" Samples.scopedClient
                    MoreSamples.twoFiles Samples.okWorld))) =
    [Some (BufferBody
             (getBuffer {| boundary := "B";
                           entries := [mkFormEntry "files" "{}" "en.json";
                                       mkFormEntry "files" "[]" "fr.json"] |}))] /\
  List.map call_body
    (issued (snd (addFiles MoreSamples.toyParse "B" Samples.scopedClient []
                    Samples.okWorld))) =
    [Some (BufferBody ("--B--" ++ CRLF))].
Proof. vm_compute. split; reflexivity. Qed.

(** X14. Project URLs tell projects apart: a client scoped to a project
    never uses the unscoped URL, and two scoped clients have the same
    project URL only if they hold the same project id. *)
Theorem projectUrl_distinguishes_projects (params : ClientParams) (p : option Z) :
  projectId params = Some p ->
  p <> Some (-1) ->
  Client.projectUrl params <> "/v2/projects" /\
  forall params' p',
    projectId params' = Some p' -> p' <> Some (-1) ->
    Client.projectUrl params = Client.projectUrl params' -> p = p'.
Proof.
  intros Hp Hne.
  assert (Hscoped : forall ps q, projectId ps = Some q -> q <> Some (-1) ->
            Client.projectUrl ps = "/v2/projects/" ++ Client.showProjectId q).
  { intros ps q Hq Hneq. unfold Client.projectUrl. rewrite Hq.
    rewrite bool_decide_eq_false_2 by exact Hneq. reflexivity. }
  split.
  - rewrite (Hscoped _ _ Hp Hne). intros H.
    change ("/v2/projects" ++ String "/"%char (Client.showProjectId p) =
            "/v2/projects" ++ EmptyString) in H.
    apply string_app_inv_head in H. discriminate H.
  - intros params' p' Hp' Hne' H.
    rewrite (Hscoped _ _ Hp Hne), (Hscoped _ _ Hp' Hne') in H.
    apply string_app_inv_head in H. apply showProjectId_inj, H.
Qed.

Lemma projectUrl_distinguishes_projects_witness :
  Client.projectUrl Samples.scopedClient <> "/v2/projects".
Proof.
  apply (projectUrl_distinguishes_projects Samples.scopedClient (Some 1337)).
  - reflexivity.
  - discriminate.
Defined.

End EndpointProperties.

(* ===================================================================== *)
(** ** Further properties: saving and resolving credentials together *)
(* ===================================================================== *)

Section CredentialRoundTrips.
Import Credentials.

Lemma find_app_none {A} (p : A -> bool) (l1 l2 : list A) :
  (forall x, In x l1 -> p x = false) ->
  List.find p (l1 ++ l2)%list = List.find p l2.
Proof.
  induction l1 as [|x l1 IH]; simpl; intros H; [reflexivity |].
  rewrite (H x) by tauto. apply IH. intros y Hy. apply H. tauto.
Qed.

Lemma find_none_iff {A} (p : A -> bool) (l : list A) :
  (forall x, In x l -> p x = false) -> List.find p l = None.
Proof.
  induction l as [|x l IH]; simpl; intros H; [reflexivity |].
  rewrite (H x) by tauto. apply IH. intros y Hy. apply H. tauto.
Qed.

(** The valid entries of a host right after a save of a valid
    credential. *)
Lemma valid_after_save now instance credential f :
  isValid now credential = true ->
  List.filter (isValid now) (stored (saveApiKey instance credential f) instance) =
  (List.filter (isValid now)
     (List.filter (fun c => negb (sameIdentity credential c)) (stored f instance))
     ++ [credential])%list.
Proof.
  intros Hv. rewrite stored_saveApiKey, List.filter_app. simpl. rewrite Hv. reflexivity.
Qed.

(** X15. A valid PAT that was just saved for a host is what [getApiKey]
    returns for that host, for every project id and whatever the store
    held before. *)
Theorem saved_PAT_is_resolved (now : Z) (instance : string) (projectId : Z)
    (credential : Credential) (f : AuthFile) :
  isPAT credential = true ->
  isValid now credential = true ->
  fst (getApiKey now instance projectId (saveApiKey instance credential f)) =
  Some (key credential).
Proof.
  intros Hpat Hv. rewrite getApiKey_result, (valid_after_save _ _ _ _ Hv).
  unfold select. rewrite find_app_none.
  - simpl. rewrite Hpat. reflexivity.
  - intros x Hx. apply filter_In in Hx as [Hx _]. apply filter_In in Hx as [_ Hx].
    destruct credential, x; simpl in *; congruence.
Qed.

Lemma saved_PAT_is_resolved_witness :
  fst (getApiKey testNow TG_1 7 (saveApiKey TG_1 PAT_3 loadFixture)) = Some (key PAT_3).
Proof. apply saved_PAT_is_resolved; reflexivity. Defined.

(** X16. A valid PAK that was just saved for a host is what [getApiKey]
    returns for that host and the PAK's project id, provided the store held
    no valid PAT for the host. *)
Theorem saved_PAK_is_resolved (now : Z) (instance : string) (projectId : Z)
    (credential : Credential) (f : AuthFile) :
  isPAKfor projectId credential = true ->
  isValid now credential = true ->
  (forall c, In c (stored f instance) -> isPAT c = true -> isValid now c = false) ->
  fst (getApiKey now instance projectId (saveApiKey instance credential f)) =
  Some (key credential).
Proof.
  intros Hpak Hv HnoPAT. rewrite getApiKey_result, (valid_after_save _ _ _ _ Hv).
  unfold select.
  assert (HisPAT : isPAT credential = false).
  { destruct credential; [discriminate Hpak | reflexivity]. }
  rewrite find_none_iff.
  - rewrite find_app_none.
    + simpl. rewrite Hpak. reflexivity.
    + intros x Hx. apply filter_In in Hx as [Hx _]. apply filter_In in Hx as [_ Hx].
      destruct (isPAKfor projectId x) eqn:E; [| reflexivity].
      apply isPAKfor_identity in E, Hpak.
      assert (sameIdentity credential x = true) as Hs
        by (apply sameIdentity_spec; congruence).
      rewrite Hs in Hx. discriminate Hx.
  - intros x Hx. apply in_app_iff in Hx as [Hx | [<- | []]]; [| exact HisPAT].
    apply filter_In in Hx as [Hx Hvx]. apply filter_In in Hx as [Hx _].
    destruct (isPAT x) eqn:E; [| reflexivity].
    rewrite (HnoPAT x Hx E) in Hvx. discriminate Hvx.
Qed.

Lemma saved_PAK_is_resolved_witness :
  fst (getApiKey testNow TG_1 1 (saveApiKey TG_1 PAK_3 loadFixture)) = Some (key PAK_3).
Proof.
  apply saved_PAK_is_resolved; [reflexivity | reflexivity |].
  intros c Hin. vm_compute in Hin. destruct Hin as [<- | [<- | []]]; discriminate.
Defined.

(** X17. Hosts do not interfere: neither a save for one host nor the
    pruning a resolution does on one host changes what is stored, or what
    [getApiKey] returns, for another host. *)
Theorem other_hosts_are_independent (now : Z) (instance other : string)
    (projectId projectId' : Z) (credential : Credential) (f : AuthFile) :
  other <> instance ->
  stored (saveApiKey instance credential f) other = stored f other /\
  fst (getApiKey now other projectId (saveApiKey instance credential f)) =
    fst (getApiKey now other projectId f) /\
  fst (getApiKey now other projectId (snd (getApiKey now instance projectId' f))) =
    fst (getApiKey now other projectId f).
Proof.
  intros Hne. split; [apply stored_saveApiKey_ne, Hne |]. split.
  - rewrite !getApiKey_result, stored_saveApiKey_ne by exact Hne. reflexivity.
  - rewrite !getApiKey_result, getApiKey_stored_ne by exact Hne. reflexivity.
Qed.

Lemma other_hosts_are_independent_witness :
  fst (getApiKey testNow TG_2 1 (saveApiKey TG_1 PAT_3 loadFixture)) = Some (key PAT_1).
Proof.
  assert (Hne : TG_2 <> TG_1) by discriminate.
  destruct (other_hosts_are_independent testNow TG_1 TG_2 1 1 PAT_3 loadFixture Hne)
    as (_ & -> & _).
  reflexivity.
Defined.

Lemma filter_idempotent {A} (p : A -> bool) (l : list A) :
  List.filter p (List.filter p l) = List.filter p l.
Proof.
  induction l as [|x l IH]; simpl; [reflexivity |].
  destruct (p x) eqn:E; simpl; [rewrite E, IH |]; auto.
Qed.

Lemma filter_none {A} (p : A -> bool) (l : list A) :
  (forall x, In x l -> p x = false) -> List.filter p l = [].
Proof.
  induction l as [|x l IH]; simpl; intros H; [reflexivity |].
  rewrite (H x) by tauto. apply IH. intros y Hy. apply H. tauto.
Qed.

(** [getApiKey] writes only to prune: when the host has no expired
    entry the persisted file is left as it is (an absent file stays
    absent), and right after one resolution a second one for the same host
    at the same time finds nothing more to prune and, for the same project
    id, returns the same key. *)
Theorem getApiKey_writes_only_to_prune (now : Z) (instance : string)
    (projectId : Z) (f : AuthFile) :
  ((forall c, In c (stored f instance) -> isExpired now c = false) ->
   snd (getApiKey now instance projectId f) = f) /\
  (forall projectId',
     snd (getApiKey now instance projectId' (snd (getApiKey now instance projectId f))) =
     snd (getApiKey now instance projectId f)) /\
  fst (getApiKey now instance projectId (snd (getApiKey now instance projectId f))) =
  fst (getApiKey now instance projectId f).
Proof.
  assert (Hquiet : forall g p,
            (forall c, In c (stored g instance) -> isExpired now c = false) ->
            snd (getApiKey now instance p g) = g).
  { intros g p Hnone. unfold getApiKey. simpl. fold (stored g instance).
    rewrite (filter_none _ _ Hnone). reflexivity. }
  split; [apply Hquiet |]. split.
  - intros projectId'. apply Hquiet. intros c Hc.
    rewrite getApiKey_stored in Hc. apply filter_In in Hc as [_ Hv].
    unfold isValid in Hv. destruct (isExpired now c); [discriminate | reflexivity].
  - rewrite !getApiKey_result, getApiKey_stored, filter_idempotent. reflexivity.
Qed.

End CredentialRoundTrips.

(* ===================================================================== *)
(** ** Further properties: header names and repeated deletion *)
(* ===================================================================== *)

Section HeaderAndRepeatProperties.
Import Js Internal Vocabulary.

(** X18. The executor adds no header of its own beyond three: the names
    in the issued call are those the descriptor supplied, [x-api-key],
    [user-agent], and [content-type] exactly when the descriptor's body is
    truthy. *)
Theorem request_header_names (params : ClientParams) (req : RequestData) (w : World) :
  exists call,
    issued (snd (Client.request params req w)) = (issued w ++ [call])%list /\
    dom (call_headers call) =
      ({["user-agent"]} ∪
       ((if Client.bodyTruthy (req_body req) then {["content-type"]} else ∅) ∪
        ({["x-api-key"]} ∪ dom (default (∅ : Headers) (headers req)))) : gset string).
Proof.
  exists (callOf params req (version w)).
  split; [apply Client_request_issued |].
  unfold callOf, Client.encodeBody. simpl.
  rewrite dom_insert_L. f_equal.
  destruct (Client.bodyTruthy (req_body req)); [destruct (req_body req) |]; simpl;
    rewrite ?dom_insert_L; try reflexivity.
  symmetry. apply (left_id_L ∅ (∪)).
Qed.

(** X19. Deleting an import that is already gone can be repeated: while
    the server answers 404, [deleteImportIfExists] run twice in a row
    resolves, having issued the same call twice and read neither body. *)
Theorem deleteImportIfExists_repeatable (params : ClientParams) (w : World)
    (txt : string) (b : option Stream) :
  network w (callOf params (ImportClient.deleteImportRequest params) (version w)) =
    Reply 404 txt b ->
  let call := callOf params (ImportClient.deleteImportRequest params) (version w) in
  (_ <- ImportClient.deleteImportIfExists params ;;
   ImportClient.deleteImportIfExists params) w =
  (Resolved tt, afterCall (afterCall w call (unread b)) call (unread b)).
Proof.
  intros Hnet call.
  assert (Honce : forall w0,
            version w0 = version w -> network w0 = network w ->
            ImportClient.deleteImportIfExists params w0 =
            (Resolved tt, afterCall w0 call (unread b))).
  { intros w0 Hv Hn.
    unfold ImportClient.deleteImportIfExists, tryCatch, ImportClient.deleteImport.
    rewrite requestVoid_outcome, Hv, Hn, Hnet.
    destruct b as [s |]; reflexivity. }
  unfold bind. rewrite (Honce w eq_refl eq_refl).
  apply Honce; reflexivity.
Qed.

Lemma deleteImportIfExists_repeatable_witness :
  fst ((_ <- ImportClient.deleteImportIfExists Samples.scopedClient ;;
        ImportClient.deleteImportIfExists Samples.scopedClient) Samples.notFoundWorld)
    = Resolved tt /\
  length (issued (snd ((_ <- ImportClient.deleteImportIfExists Samples.scopedClient ;;
                        ImportClient.deleteImportIfExists Samples.scopedClient)
                         Samples.notFoundWorld))) = 2%nat.
Proof.
  assert (Hnet : network Samples.notFoundWorld
                   (callOf Samples.scopedClient
                      (ImportClient.deleteImportRequest Samples.scopedClient)
                      (version Samples.notFoundWorld)) =
                 Reply 404 "Not Found" (Some [Chunk "gone"])) by reflexivity.
  rewrite (deleteImportIfExists_repeatable Samples.scopedClient Samples.notFoundWorld
             _ _ Hnet).
  split; reflexivity.
Defined.

End HeaderAndRepeatProperties.
